(** * examples/nats_camera_server.py: the streaming publisher loop

    A shallow embedding of [async_main] and of the [__main__] block.  The
    script talks to four external collaborators (the OpenCV capture device,
    the OpenCV encoder, the NATS client and the asyncio runtime).  Every call
    to one of them is recorded, in program order, in a trace of events; the
    answers come from a [world], which scripts the collaborators.

    Python floats (clock readings, durations) are modelled by exact
    rationals kept in lowest terms. *)

From Stdlib Require Import ZArith QArith List String Bool Arith Lia Lqa.
Import ListNotations.

Local Open Scope Z_scope.

(** ** Exceptions and answers of the collaborators *)

(** The exceptions the script can meet.  All of them derive from Python's
    [Exception], so an [except Exception] clause catches every one. *)
Inductive exn : Type :=
| ConnectionClosedError            (* nats.errors.ConnectionClosedError *)
| NoServersError                   (* nats.errors.NoServersError *)
| TimeoutError                     (* nats.errors.TimeoutError *)
| ZeroDivisionError
| OtherError (what : string).      (* any other subclass of Exception *)

(** What an external call does: it returns a value or raises. *)
Inductive result (A : Type) : Type :=
| Ok (a : A)
| Raise (e : exn).
Arguments Ok {A} a.
Arguments Raise {A} e.

(** ** Data *)

(** A raw image: [shape0] rows, [shape1] columns (numpy's [frame.shape]). *)
Record frame : Type := mkFrame {
  shape0 : Z;
  shape1 : Z;
  pixels : list Z
}.

Definition bytes := list Z.

(** The namespace returned by [parser.parse_args()]. *)
Record args : Type := mkArgs {
  nats_ip : string;
  nats_port : Z;
  camera_index : Z;
  width : Z;
  height : Z;
  fps : Z;
  subject : string;
  jpeg_quality : Z
}.

(** [f"nats://{args.nats_ip}:{args.nats_port}"], kept as its two holes. *)
Definition server_url : Type := (string * Z)%type.

Definition nats_server_url (a : args) : server_url := (nats_ip a, nats_port a).

Inductive level : Type := DEBUG | INFO | WARNING | ERROR | CRITICAL.

(** One constructor per logging call of the script. *)
Inductive log_msg : Type :=
| MsgInitCamera (index : Z)
| MsgCannotOpen (index : Z)
| MsgSetProperties (w h f : Z)
| MsgActualProperties (w h : Z) (f : Q)
| MsgResolutionNotSupported (w h aw ah : Z)
| MsgConnecting (url : server_url)
| MsgConnected (url : server_url)
| MsgNoServers (url : server_url)
| MsgConnectTimeout (url : server_url)
| MsgConnectError (e : exn)
| MsgStartingLoop (subj : string) (f : Z)
| MsgCaptureFailed
| MsgPublished (len : nat) (subj : string)
| MsgConnectionClosed
| MsgReconnected
| MsgReconnectFailed (e : exn)
| MsgPublishError (e : exn)
| MsgEncodeFailed
| MsgFpsTooHigh (f : Z) (elapsed target : Q)
| MsgUnexpected (e : exn)
| MsgShuttingDown
| MsgDrained
| MsgDrainError (e : exn)
| MsgClosed
| MsgCloseError (e : exn)
| MsgCameraReleased
| MsgFinished
| MsgStartingServer
| MsgCriticalMain (e : exn)
| MsgHasShutDown.

Inductive cap_prop : Type :=
| CAP_PROP_FRAME_WIDTH | CAP_PROP_FRAME_HEIGHT | CAP_PROP_FPS.

Inductive signal_name : Type := SIGINT | SIGTERM.

(** ** Events: the calls the script makes, with arguments and answers *)

Inductive event : Type :=
| EvLog (lvl : level) (m : log_msg)
| EvVideoCapture (index : Z)                          (* cv2.VideoCapture(i) *)
| EvIsOpened (b : bool)                               (* cap.isOpened() *)
| EvCapSet (p : cap_prop) (v : Z)                     (* cap.set(p, v) *)
| EvCapGet (p : cap_prop) (v : Q)                     (* cap.get(p) *)
| EvNatsConnect (url : server_url) (timeout : Z) (r : result unit)
| EvIsSet (b : bool)                                  (* shutdown_event.is_set() *)
| EvMonotonic (t : Q)                                 (* time.monotonic() *)
| EvRead (r : result (bool * option frame))           (* cap.read() *)
| EvResize (f : frame) (w h : Z) (r : result frame)   (* cv2.resize(f, (w, h)) *)
| EvImencode (f : frame) (quality : Z) (r : result (bool * bytes))
| EvPublish (subj : string) (payload : bytes) (r : result unit)
| EvIsConnected (b : bool)                            (* nc.is_connected *)
| EvNcConnect (servers : list server_url) (timeout : Z) (r : result unit)
| EvSleep (d : Q)                                     (* await asyncio.sleep(d) *)
| EvDrain (r : result unit)                           (* await nc.drain() *)
| EvClose (r : result unit)                           (* await nc.close() *)
| EvRelease                                           (* cap.release() *)
| EvSignal (s : signal_name)             (* signal.signal(s, signal_handler) *)
| EvSet.                                              (* shutdown_event.set() *)

(** ** The world: scripted collaborators *)

(** The answers met during one pass through the body of the [while] loop.
    A field is consulted only if the pass reaches the call it answers. *)
Record iter_env : Type := mkIter {
  t_start : Q;                               (* time.monotonic() at the top *)
  read_r : result (bool * option frame);     (* cap.read() *)
  publish_r : result unit;                   (* await nc.publish(...) *)
  connected_r : bool;                        (* nc.is_connected in the handler *)
  reconnect_r : result unit;                 (* await nc.connect(...) *)
  t_end : Q                                  (* time.monotonic() after the work *)
}.

Record world : Type := mkWorld {
  (** [signal_handler] runs once [n] operations of the trace have been
      performed, that is during (or just before) operation number [n];
      [None]: it never runs.  The handler only sets [shutdown_event]; a
      signal that arrives before the handler is installed is not modelled. *)
  signal_at : option nat;
  cap_opened : bool;                         (* cap.isOpened() after opening *)
  actual_width : Q;                          (* cap.get(CAP_PROP_FRAME_WIDTH) *)
  actual_height : Q;
  actual_fps : Q;
  connect_r : result unit;                   (* await nats.connect(url, ...) *)
  cv2_resize : frame -> Z -> Z -> result frame;
  cv2_imencode : frame -> Z -> result (bool * bytes);
  iters : nat -> iter_env;                   (* the n-th pass of the loop *)
  final_connected : bool;                    (* nc.is_connected, finally block *)
  drain_r : result unit;
  close_r : result unit;
  final_opened : bool                        (* cap.isOpened(), finally block *)
}.

(** ** The monad of the script

    The state holds the trace so far and whether the locals [cap] and [nc]
    of [async_main] are bound to an object ([false]: still [None]).  A
    computation yields the state it reached and [Some] of a value or of a
    raised exception, or [None] when the fuel of the loop ran out with the
    loop still running. *)

Record state : Type := mkState {
  trace : list event;
  cap : bool;
  nc : bool
}.

Definition M (A : Type) : Type := state -> state * option (result A).

Definition ret {A} (a : A) : M A := fun s => (s, Some (Ok a)).

Definition bind {A B} (m : M A) (k : A -> M B) : M B :=
  fun s =>
    match m s with
    | (s', Some (Ok a)) => k a s'
    | (s', Some (Raise e)) => (s', Some (Raise e))
    | (s', None) => (s', None)
    end.

Notation "x <- m ;; k" := (bind m (fun x => k))
  (at level 61, m at next level, right associativity).
Notation "m ;; k" := (bind m (fun _ => k))
  (at level 61, right associativity).

Definition out_of_fuel {A} : M A := fun s => (s, None).

(** A computation without operations that returns or raises. *)
Definition eval {A} (r : result A) : M A := fun s => (s, Some r).

(** [try: body except <any class>: handler]; the handler re-raises what its
    clauses do not match. *)
Definition try_except {A} (body : M A) (handler : exn -> M A) : M A :=
  fun s =>
    match body s with
    | (s', Some (Raise e)) => handler e s'
    | other => other
    end.

(** [try: body finally: fin]: [fin] runs after [body] however it ended; an
    exception of [fin] replaces the outcome of [body]. *)
Definition try_finally {A} (body : M A) (fin : M unit) : M A :=
  fun s =>
    match body s with
    | (s', None) => (s', None)
    | (s', Some r) =>
        match fin s' with
        | (s'', Some (Ok _)) => (s'', Some r)
        | (s'', Some (Raise e)) => (s'', Some (Raise e))
        | (s'', None) => (s'', None)
        end
    end.

(** The state once the operations [evs] have been performed. *)
Definition extend (s : state) (evs : list event) : state :=
  mkState (trace s ++ evs) (cap s) (nc s).

Definition emit (ev : event) : M unit :=
  fun s => (extend s [ev], Some (Ok tt)).

(** An external call: the event is recorded and the scripted answer given. *)
Definition call {A} (ev : event) (r : result A) : M A :=
  fun s => (extend s [ev], Some r).

Definition bind_cap : M unit :=
  fun s => (mkState (trace s) true (nc s), Some (Ok tt)).

Definition bind_nc : M unit :=
  fun s => (mkState (trace s) (cap s) true, Some (Ok tt)).

Definition get_cap : M bool := fun s => (s, Some (Ok (cap s))).
Definition get_nc : M bool := fun s => (s, Some (Ok (nc s))).

Definition log (lvl : level) (m : log_msg) : M unit := emit (EvLog lvl m).

(** ** Floats as rationals *)

Definition Qlt_bool (x y : Q) : bool := negb (Qle_bool y x).

Definition fsub (x y : Q) : Q := Qred (x - y).

(** [1.0 / n] for an [int] [n]: Python raises on a zero divisor. *)
Definition fdiv_int (n : Z) : result Q :=
  if n =? 0 then Raise ZeroDivisionError else Ok (Qred (1 / inject_Z n)).

(** [int(x)] of a float truncates toward zero. *)
Definition int_of_float (x : Q) : Z := Z.quot (Qnum x) (Zpos (Qden x)).

(** ** The shutdown event *)

(** [shutdown_event.is_set()] asked when [p] operations have been performed. *)
Definition event_set_at (w : world) (p : nat) : bool :=
  match signal_at w with
  | Some n => Nat.leb n p
  | None => false
  end.

Definition is_set (w : world) : M bool :=
  fun s =>
    let b := event_set_at w (List.length (trace s)) in
    call (EvIsSet b) (Ok b) s.

(** ** The body of the [while] loop (source lines 132-181) *)

(** How a pass through the body ends: it falls through or [continue]s
    ([Next]), or it leaves the loop ([Break]). *)
Inductive ctrl : Type := Next | Break.

(** The [try] around [nc.publish] with its two [except] clauses and the
    nested [try] around the reconnect. *)
Definition publish_with_reconnect (a : args) (e : iter_env) (buffer : bytes)
  : M ctrl :=
  try_except
    (call (EvPublish (subject a) buffer (publish_r e)) (publish_r e) ;;
     log DEBUG (MsgPublished (List.length buffer) (subject a)) ;;
     ret Next)
    (fun ex =>
       match ex with
       | ConnectionClosedError =>
           log ERROR MsgConnectionClosed ;;
           try_except
             (connected <- call (EvIsConnected (connected_r e))
                                (Ok (connected_r e)) ;;
              (if negb connected then
                 call (EvNcConnect [nats_server_url a] 5 (reconnect_r e))
                      (reconnect_r e) ;;
                 log INFO MsgReconnected
               else ret tt) ;;
              ret Next)
             (fun e_reconnect =>
                log ERROR (MsgReconnectFailed e_reconnect) ;;
                ret Break)
       | _ =>
           log ERROR (MsgPublishError ex) ;;
           ret Next
       end).

(** Lines 170-181: the pacing at the end of a pass. *)
Definition pace (a : args) (frame_duration loop_start_time : Q) (e : iter_env)
  : M unit :=
  now <- call (EvMonotonic (t_end e)) (Ok (t_end e)) ;;
  let elapsed_time := fsub now loop_start_time in
  let sleep_duration := fsub frame_duration elapsed_time in
  if Qlt_bool 0 sleep_duration then
    emit (EvSleep sleep_duration)
  else if Qlt_bool sleep_duration (- (5 # 1000)) then
    log WARNING (MsgFpsTooHigh (fps a) elapsed_time frame_duration)
  else ret tt.

(** Lines 142-148: resize when the shape differs, then encode. *)
Definition resize_and_encode (w : world) (a : args) (fr : frame)
  : M (bool * bytes) :=
  resized_frame <-
    (if negb (shape1 fr =? width a) || negb (shape0 fr =? height a) then
       call (EvResize fr (width a) (height a)
                      (cv2_resize w fr (width a) (height a)))
            (cv2_resize w fr (width a) (height a))
     else ret fr) ;;
  call (EvImencode resized_frame (jpeg_quality a)
                   (cv2_imencode w resized_frame (jpeg_quality a)))
       (cv2_imencode w resized_frame (jpeg_quality a)).

Definition loop_body (w : world) (a : args) (frame_duration : Q)
  (e : iter_env) : M ctrl :=
  loop_start_time <- call (EvMonotonic (t_start e)) (Ok (t_start e)) ;;
  rf <- call (EvRead (read_r e)) (read_r e) ;;
  match rf with
  | (true, Some fr) =>
      enc <- resize_and_encode w a fr ;;
      c <- (let '(is_success, buffer) := enc in
            if is_success then publish_with_reconnect a e buffer
            else log WARNING MsgEncodeFailed ;; ret Next) ;;
      match c with
      | Break => ret Break
      | Next => pace a frame_duration loop_start_time e ;; ret Next
      end
  | _ =>
      (* not ret or frame is None *)
      log WARNING MsgCaptureFailed ;;
      emit (EvSleep (1 # 10)) ;;
      ret Next                                       (* continue *)
  end.

(** [while not shutdown_event.is_set(): ...]; [k] numbers the passes and the
    fuel bounds how many of them are run. *)
Fixpoint while_loop (fuel : nat) (w : world) (a : args) (frame_duration : Q)
  (k : nat) : M unit :=
  match fuel with
  | O => out_of_fuel
  | S fuel' =>
      stop <- is_set w ;;
      if stop then ret tt
      else
        c <- loop_body w a frame_duration (iters w k) ;;
        match c with
        | Break => ret tt
        | Next => while_loop fuel' w a frame_duration (S k)
        end
  end.

(** ** Start-up (source lines 85-129) *)

(** Lines 86-90; [true] when the camera is open, [false] stands for the
    early [return]. *)
Definition init_camera (w : world) (a : args) : M bool :=
  log INFO (MsgInitCamera (camera_index a)) ;;
  emit (EvVideoCapture (camera_index a)) ;;
  bind_cap ;;
  opened <- call (EvIsOpened (cap_opened w)) (Ok (cap_opened w)) ;;
  if negb opened then
    log ERROR (MsgCannotOpen (camera_index a)) ;;
    ret false
  else ret true.

(** Lines 93-107. *)
Definition set_properties (w : world) (a : args) : M unit :=
  log INFO (MsgSetProperties (width a) (height a) (fps a)) ;;
  emit (EvCapSet CAP_PROP_FRAME_WIDTH (width a)) ;;
  emit (EvCapSet CAP_PROP_FRAME_HEIGHT (height a)) ;;
  emit (EvCapSet CAP_PROP_FPS (fps a)) ;;
  aw <- call (EvCapGet CAP_PROP_FRAME_WIDTH (actual_width w))
             (Ok (int_of_float (actual_width w))) ;;
  ah <- call (EvCapGet CAP_PROP_FRAME_HEIGHT (actual_height w))
             (Ok (int_of_float (actual_height w))) ;;
  af <- call (EvCapGet CAP_PROP_FPS (actual_fps w)) (Ok (actual_fps w)) ;;
  log INFO (MsgActualProperties aw ah af) ;;
  if negb (aw =? width a) || negb (ah =? height a) then
    log WARNING (MsgResolutionNotSupported (width a) (height a) aw ah)
  else ret tt.

(** Lines 112-125; [false] stands for the [return] of the three handlers. *)
Definition connect_nats (w : world) (a : args) : M bool :=
  let url := nats_server_url a in
  log INFO (MsgConnecting url) ;;
  try_except
    (call (EvNatsConnect url 5 (connect_r w)) (connect_r w) ;;
     bind_nc ;;
     log INFO (MsgConnected url) ;;
     ret true)
    (fun ex =>
       match ex with
       | NoServersError => log ERROR (MsgNoServers url) ;; ret false
       | TimeoutError => log ERROR (MsgConnectTimeout url) ;; ret false
       | _ => log ERROR (MsgConnectError ex) ;; ret false
       end).

(** Lines 128-131: the period, then the loop. *)
Definition publishing_loop (fuel : nat) (w : world) (a : args) : M unit :=
  frame_duration <- eval (fdiv_int (fps a)) ;;
  log INFO (MsgStartingLoop (subject a) (fps a)) ;;
  while_loop fuel w a frame_duration 0.

(** The body of the outer [try]. *)
Definition try_body (fuel : nat) (w : world) (a : args) : M unit :=
  opened <- init_camera w a ;;
  if negb opened then ret tt
  else
    set_properties w a ;;
    connected <- connect_nats w a ;;
    if negb connected then ret tt
    else publishing_loop fuel w a.

(** ** The [finally] block (source lines 184-206) *)

Definition release_transport (w : world) : M unit :=
  nc_bound <- get_nc ;;
  if nc_bound then
    connected <- call (EvIsConnected (final_connected w))
                      (Ok (final_connected w)) ;;
    if connected then
      try_except
        (call (EvDrain (drain_r w)) (drain_r w) ;; log INFO MsgDrained)
        (fun ex => log ERROR (MsgDrainError ex)) ;;
      try_except
        (call (EvClose (close_r w)) (close_r w) ;; log INFO MsgClosed)
        (fun ex => log ERROR (MsgCloseError ex))
    else
      (* elif nc: *)
      try_except
        (call (EvClose (close_r w)) (close_r w))
        (fun _ => ret tt)                            (* pass *)
  else ret tt.

Definition release_camera (w : world) : M unit :=
  cap_bound <- get_cap ;;
  if cap_bound then
    opened <- call (EvIsOpened (final_opened w)) (Ok (final_opened w)) ;;
    if opened then
      emit EvRelease ;;
      log INFO MsgCameraReleased
    else ret tt
  else ret tt.

Definition finally_block (w : world) : M unit :=
  log INFO MsgShuttingDown ;;
  release_transport w ;;
  release_camera w ;;
  log INFO MsgFinished.

(** ** [async_main] *)

Definition async_main (fuel : nat) (w : world) (a : args) : M unit :=
  try_finally
    (try_except
       (try_body fuel w a)
       (fun ex => log ERROR (MsgUnexpected ex)))
    (finally_block w).

(** ** The [__main__] block (source lines 209-261) *)

(** The command line after argparse's [type=] conversions: [None] where an
    option is absent. *)
Record cmdline : Type := mkCmdline {
  opt_nats_ip : option string;
  opt_nats_port : option Z;
  opt_camera_index : option Z;
  opt_width : option Z;
  opt_height : option Z;
  opt_fps : option Z;
  opt_subject : option string;
  opt_jpeg_quality : option Z
}.

Definition default {A} (d : A) (o : option A) : A :=
  match o with Some x => x | None => d end.

(** [x in range(lo, hi)]. *)
Definition in_range (lo hi x : Z) : bool := (lo <=? x) && (x <? hi).

(** [parser.parse_args()]: defaults are filled in; a [--jpeg_quality] outside
    [choices=range(0, 101)] makes argparse exit with status 2. *)
Definition parse_args (c : cmdline) : Z + args :=
  match opt_jpeg_quality c with
  | Some q =>
      if in_range 0 101 q then
        inr (mkArgs (default "0.0.0.0"%string (opt_nats_ip c))
                    (default 4222 (opt_nats_port c))
                    (default 0 (opt_camera_index c))
                    (default 640 (opt_width c))
                    (default 480 (opt_height c))
                    (default 30 (opt_fps c))
                    (default "camera.image.raw"%string (opt_subject c))
                    q)
      else inl 2
  | None =>
      inr (mkArgs (default "0.0.0.0"%string (opt_nats_ip c))
                  (default 4222 (opt_nats_port c))
                  (default 0 (opt_camera_index c))
                  (default 640 (opt_width c))
                  (default 480 (opt_height c))
                  (default 30 (opt_fps c))
                  (default "camera.image.raw"%string (opt_subject c))
                  90)
  end.

(** Lines 245-261 once the arguments are parsed.  The script installs its
    own SIGINT handler, so no [KeyboardInterrupt] is raised and that clause
    is left out. *)
Definition run_server (fuel : nat) (w : world) (a : args) : M unit :=
  emit (EvSignal SIGINT) ;;
  emit (EvSignal SIGTERM) ;;
  log INFO MsgStartingServer ;;
  try_finally
    (try_except
       (async_main fuel w a)
       (fun ex => log CRITICAL (MsgCriticalMain ex)))
    (already <- is_set w ;;
     (if negb already then emit EvSet else ret tt) ;;
     log INFO MsgHasShutDown).

Definition initial_state : state := mkState [] false false.

(** The exit status of the interpreter: 0 when the script runs to its end,
    1 when an exception reaches the top level. *)
Definition exit_status (r : result unit) : Z :=
  match r with Ok _ => 0 | Raise _ => 1 end.

(** The whole process: the trace and the exit status ([None] while the loop
    is still running after [fuel] passes).  When argparse rejects the command
    line the process exits at once with argparse's status. *)
Definition main (fuel : nat) (w : world) (c : cmdline)
  : list event * option Z :=
  match parse_args c with
  | inl status => ([], Some status)
  | inr a =>
      let '(s, r) := run_server fuel w a initial_state in
      (trace s, option_map exit_status r)
  end.

(** ** Notions used by the properties *)

(** A computation is oblivious when it does not look at the state: it
    appends a fixed list of events and ends in a fixed way. *)
Definition oblivious {A} (m : M A) : Prop :=
  exists evs r, forall s, m s = (extend s evs, r).

(** What one pass of the loop does, read off a run from the empty state. *)
Definition pass_events (w : world) (a : args) (fd : Q) (e : iter_env)
  : list event :=
  trace (fst (loop_body w a fd e initial_state)).

Definition pass_ctrl (w : world) (a : args) (fd : Q) (e : iter_env)
  : option (result ctrl) :=
  snd (loop_body w a fd e initial_state).

(** What resizing and encoding a frame does, and what pacing does. *)
Definition encode_events (w : world) (a : args) (fr : frame) : list event :=
  trace (fst (resize_and_encode w a fr initial_state)).

Definition encode_result (w : world) (a : args) (fr : frame)
  : option (result (bool * bytes)) :=
  snd (resize_and_encode w a fr initial_state).

Definition pace_events (a : args) (fd t0 : Q) (e : iter_env) : list event :=
  trace (fst (pace a fd t0 e initial_state)).

Definition is_read (ev : event) : bool :=
  match ev with EvRead _ => true | _ => false end.

Definition is_publish (ev : event) : bool :=
  match ev with EvPublish _ _ _ => true | _ => false end.

Definition is_reconnect (ev : event) : bool :=
  match ev with EvNcConnect _ _ _ => true | _ => false end.

Definition is_sleep (ev : event) : bool :=
  match ev with EvSleep _ => true | _ => false end.

Definition count (p : event -> bool) (l : list event) : nat :=
  List.length (filter p l).

(** The capture requests issued once [n] operations had been performed. *)
Definition reads_from (n : nat) (tr : list event) : nat :=
  count is_read (skipn n tr).

(** [not ret or frame is None] on the answer of [cap.read()]. *)
Definition capture_failed (r : bool * option frame) : bool :=
  match r with
  | (true, Some _) => false
  | _ => true
  end.



(** The release steps in the order the shutdown path is expected to take
    them: the transport (drained when it reports connected, then closed),
    then the frame source. *)
Definition transport_release (w : world) : list event :=
  if final_connected w then
    [EvIsConnected true;
     EvDrain (drain_r w);
     match drain_r w with
     | Ok _ => EvLog INFO MsgDrained
     | Raise ex => EvLog ERROR (MsgDrainError ex)
     end;
     EvClose (close_r w);
     match close_r w with
     | Ok _ => EvLog INFO MsgClosed
     | Raise ex => EvLog ERROR (MsgCloseError ex)
     end]
  else
    [EvIsConnected false; EvClose (close_r w)].

Definition camera_release (w : world) : list event :=
  if final_opened w then [EvIsOpened true; EvRelease; EvLog INFO MsgCameraReleased]
  else [EvIsOpened false].

Definition release_sequence (w : world) : list event :=
  EvLog INFO MsgShuttingDown ::
  transport_release w ++ camera_release w ++ [EvLog INFO MsgFinished].





(** What publishing a payload does, reconnect handling included. *)
Definition publish_events (a : args) (e : iter_env) (buffer : bytes)
  : list event :=
  trace (fst (publish_with_reconnect a e buffer initial_state)).

Definition publish_ctrl (a : args) (e : iter_env) (buffer : bytes)
  : option (result ctrl) :=
  snd (publish_with_reconnect a e buffer initial_state).


(** A computation keeps a property of the events of the trace. *)
Definition preserves (P : event -> Prop) {A} (m : M A) : Prop :=
  forall s, Forall P (trace s) -> Forall P (trace (fst (m s))).

(** The log lines that report how a reconnect ended. *)
Definition is_reconnect_log (ev : event) : bool :=
  match ev with
  | EvLog _ MsgReconnected | EvLog _ (MsgReconnectFailed _) => true
  | _ => false
  end.

(** The events of resizing and encoding, and those of pacing. *)
Definition encoder_event (ev : event) : bool :=
  match ev with
  | EvResize _ _ _ _ | EvImencode _ _ _ => true
  | _ => false
  end.

Definition pacing_event (ev : event) : bool :=
  match ev with
  | EvMonotonic _ | EvSleep _ | EvLog WARNING (MsgFpsTooHigh _ _ _) => true
  | _ => false
  end.

(** The events of the [finally] block, given whether [cap] and [nc] are
    bound. *)
Definition release_events (w : world) (cap_bound nc_bound : bool)
  : list event :=
  EvLog INFO MsgShuttingDown ::
  (if nc_bound then transport_release w else []) ++
  (if cap_bound then camera_release w else []) ++
  [EvLog INFO MsgFinished].

Definition is_release (ev : event) : bool :=
  match ev with EvRelease => true | _ => false end.

(** The log lines that report a failed drain or a failed close. *)
Definition is_release_error_log (ev : event) : bool :=
  match ev with
  | EvLog _ (MsgDrainError _) | EvLog _ (MsgCloseError _) => true
  | _ => false
  end.

(** What [__main__] does before it runs [async_main]. *)
Definition main_prelude : list event :=
  [EvSignal SIGINT; EvSignal SIGTERM; EvLog INFO MsgStartingServer].

(** The same collaborators, with the signal delivered at another moment. *)
Definition set_signal (w : world) (sig : option nat) : world :=
  mkWorld sig (cap_opened w) (actual_width w) (actual_height w) (actual_fps w)
          (connect_r w) (cv2_resize w) (cv2_imencode w) (iters w)
          (final_connected w) (drain_r w) (close_r w) (final_opened w).

(** ** Scenarios

    Concrete collaborators and command lines on which the properties below
    are exercised. *)

Definition default_args : args :=
  mkArgs "0.0.0.0" 4222 0 640 480 30 "camera.image.raw" 90.

(** A resize that returns a frame of the requested size. *)
Definition resize_to (f : frame) (wd ht : Z) : result frame :=
  Ok (mkFrame ht wd (pixels f)).

(** An encoder that always succeeds. *)
Definition encode_all (f : frame) (q : Z) : result (bool * bytes) :=
  Ok (true, q :: shape0 f :: shape1 f :: pixels f).

Definition frame_1280x960 : frame := mkFrame 960 1280 [1; 2; 3].
Definition frame_640x480 : frame := mkFrame 480 640 [7].

(** A pass with a valid 1280x960 frame and a successful publish. *)
Definition pass_valid (t0 t1 : Q) : iter_env :=
  mkIter t0 (Ok (true, Some frame_1280x960)) (Ok tt) true (Ok tt) t1.

(** A pass whose capture fails. *)
Definition pass_no_frame (t0 : Q) : iter_env :=
  mkIter t0 (Ok (false, None)) (Ok tt) true (Ok tt) t0.

(** A pass whose publish raises [ex]; the client then reports [connected]
    and a reconnect would end as [rec]. *)
Definition pass_publish_raises (ex : exn) (connected : bool)
  (rec : result unit) : iter_env :=
  mkIter 0 (Ok (true, Some frame_640x480)) (Raise ex) connected rec (1 # 100).

(** The passes of a run, scripted by a list; later passes capture nothing. *)
Definition scripted (l : list iter_env) (k : nat) : iter_env :=
  nth k l (pass_no_frame 0).

(** A camera that opens, a server that answers, an orderly release. *)
Definition healthy_world (sig : option nat) (passes : nat -> iter_env)
  : world :=
  mkWorld sig true 640 480 30 (Ok tt) resize_to encode_all passes
          true (Ok tt) (Ok tt) true.

(** Two failed captures, then a valid frame; no signal is delivered. *)
Definition world_two_failures : world :=
  healthy_world None
    (scripted [pass_no_frame 0; pass_no_frame (1 # 10);
               pass_valid (2 # 10) (21 # 100)]).

(** A lost connection met at the first publish: the client reports
    [connected] when asked, a reconnect would end as [rec]. *)
Definition world_disconnect (connected : bool) (rec : result unit) : world :=
  healthy_world None
    (scripted [pass_publish_raises ConnectionClosedError connected rec]).

(** A publish that fails with an error other than a lost connection. *)
Definition world_publish_error : world :=
  healthy_world None
    (scripted [pass_publish_raises (OtherError "payload too large") true (Ok tt)]).

(** One pass with a valid frame whose work ends at [t1] (it starts at 0);
    later passes capture nothing. *)
Definition world_paced (sig : option nat) (t1 : Q) : world :=
  healthy_world sig (scripted [pass_valid 0 t1]).

(** One frame per second. *)
Definition args_1fps : args :=
  mkArgs "0.0.0.0" 4222 0 640 480 1 "camera.image.raw" 90.

(** The reconnect fails and the loop is left; in the finally block the
    client reports disconnected, its close raises, and the camera reports
    that it is not open any more. *)
Definition world_silent_close : world :=
  mkWorld None true 640 480 30 (Ok tt) resize_to encode_all
    (scripted [pass_publish_raises ConnectionClosedError false
                                   (Raise TimeoutError)])
    false (Ok tt) (Raise (OtherError "close failed")) false.

(** No option on the command line: every default applies. *)
Definition cmd_defaults : cmdline :=
  mkCmdline None None None None None None None None.

(** [--fps 0]. *)
Definition cmd_fps_zero : cmdline :=
  mkCmdline None None None None None (Some 0) None None.

(** The capture device cannot be opened. *)
Definition world_no_camera : world :=
  mkWorld None false 0 0 0 (Ok tt) resize_to encode_all (scripted [])
          false (Ok tt) (Ok tt) false.

(** No server answers the first connect. *)
Definition world_no_server : world :=
  mkWorld None true 640 480 30 (Raise NoServersError) resize_to encode_all
          (scripted []) false (Ok tt) (Ok tt) true.


(** ** Further notions: the run as a whole *)

(** The payloads handed to [nc.publish], in the order of the calls. *)
Definition publish_attempts (tr : list event) : list bytes :=
  flat_map (fun ev => match ev with EvPublish _ p _ => [p] | _ => [] end) tr.

(** The payload that a pass hands to [nc.publish]: that of a frame which
    was captured and encoded with success; [None] when the pass has nothing
    to publish. *)
Definition pass_payload (w : world) (a : args) (e : iter_env) : option bytes :=
  match read_r e with
  | Ok (true, Some fr) =>
      match encode_result w a fr with
      | Some (Ok (true, buf)) => Some buf
      | _ => None
      end
  | _ => None
  end.

Definition option_list {A} (o : option A) : list A :=
  match o with Some x => [x] | None => [] end.

(** The last operation of a trace. *)
Definition last_event (tr : list event) : option event :=
  last (map Some tr) None.

(** The operations that only a pass of the loop performs. *)
Definition pass_only (ev : event) : bool :=
  match ev with
  | EvMonotonic _ | EvRead _ | EvResize _ _ _ _ | EvImencode _ _ _
  | EvPublish _ _ _ | EvNcConnect _ _ _ | EvSleep _ => true
  | _ => false
  end.

(** The operations of the start-up. *)
Definition startup_event (ev : event) : bool :=
  match ev with
  | EvLog _ _ | EvVideoCapture _ | EvIsOpened _ | EvCapSet _ _
  | EvCapGet _ _ | EvNatsConnect _ _ _ => true
  | _ => false
  end.

Definition is_first_connect (ev : event) : bool :=
  match ev with EvNatsConnect _ _ _ => true | _ => false end.

Definition is_drain (ev : event) : bool :=
  match ev with EvDrain _ => true | _ => false end.

Definition is_close (ev : event) : bool :=
  match ev with EvClose _ => true | _ => false end.

(** Every call of a run is made with the values of the command line. *)
Definition uses_configuration (a : args) (ev : event) : Prop :=
  match ev with
  | EvPublish subj _ _ => subj = subject a
  | EvImencode _ q _ => q = jpeg_quality a
  | EvResize _ wd ht _ => wd = width a /\ ht = height a
  | EvNcConnect servers timeout _ =>
      servers = [nats_server_url a] /\ timeout = 5
  | EvNatsConnect url timeout _ => url = nats_server_url a /\ timeout = 5
  | EvVideoCapture i => i = camera_index a
  | _ => True
  end.

(** A sleep is asked for a positive time. *)
Definition sleeps_positive (ev : event) : Prop :=
  match ev with
  | EvSleep d => (0 < d)%Q
  | _ => True
  end.

(** The operations of the loop: its test and those of its passes. *)
Definition loop_event (ev : event) : bool :=
  match ev with
  | EvIsSet _ | EvMonotonic _ | EvRead _ | EvResize _ _ _ _
  | EvImencode _ _ _ | EvPublish _ _ _ | EvNcConnect _ _ _ | EvSleep _
  | EvIsConnected _ | EvLog _ _ => true
  | _ => false
  end.

(** Lines 86-107 when the camera opens: what is done before the first
    connect. *)
Definition camera_setup (w : world) (a : args) : list event :=
  [EvLog INFO (MsgInitCamera (camera_index a));
   EvVideoCapture (camera_index a);
   EvIsOpened true;
   EvLog INFO (MsgSetProperties (width a) (height a) (fps a));
   EvCapSet CAP_PROP_FRAME_WIDTH (width a);
   EvCapSet CAP_PROP_FRAME_HEIGHT (height a);
   EvCapSet CAP_PROP_FPS (fps a);
   EvCapGet CAP_PROP_FRAME_WIDTH (actual_width w);
   EvCapGet CAP_PROP_FRAME_HEIGHT (actual_height w);
   EvCapGet CAP_PROP_FPS (actual_fps w);
   EvLog INFO (MsgActualProperties (int_of_float (actual_width w))
                                   (int_of_float (actual_height w))
                                   (actual_fps w))] ++
  (if negb (int_of_float (actual_width w) =? width a)
      || negb (int_of_float (actual_height w) =? height a)
   then [EvLog WARNING
           (MsgResolutionNotSupported (width a) (height a)
              (int_of_float (actual_width w))
              (int_of_float (actual_height w)))]
   else []).

(** The error line of each handler of the first connect. *)
Definition connect_error_log (a : args) (ex : exn) : event :=
  match ex with
  | NoServersError => EvLog ERROR (MsgNoServers (nats_server_url a))
  | TimeoutError => EvLog ERROR (MsgConnectTimeout (nats_server_url a))
  | _ => EvLog ERROR (MsgConnectError ex)
  end.

(** The operations of the [finally] block. *)
Definition release_event (ev : event) : bool :=
  match ev with
  | EvLog _ _ | EvIsConnected _ | EvDrain _ | EvClose _ | EvIsOpened _
  | EvRelease => true
  | _ => false
  end.

(** An encoding is asked with a quality that JPEG accepts. *)
Definition quality_in_range (ev : event) : Prop :=
  match ev with
  | EvImencode _ q _ => 0 <= q <= 100
  | _ => True
  end.

(** ** Further scenarios *)

(** An encoder that reports failure on every frame. *)
Definition world_encoder_fails : world :=
  mkWorld None true 640 480 30 (Ok tt) resize_to
          (fun _ _ => Ok (false, []))
          (scripted [pass_valid 0 (1 # 100)]) true (Ok tt) (Ok tt) true.

(** The first [cap.read()] raises. *)
Definition world_read_raises : world :=
  healthy_world None
    (scripted [mkIter 0 (Raise (OtherError "device lost")) (Ok tt) true
                      (Ok tt) 0]).

(** A rate of one frame per second, backwards. *)
Definition args_negative_fps : args :=
  mkArgs "0.0.0.0" 4222 0 640 480 (-1) "camera.image.raw" 90.

(** * lerobot/common/robot_devices/robots/dummy_robot.py: [DummyRobot]

    The robot owns a dictionary of cameras and a connection flag.  The
    cameras are external objects: every call to one of them is recorded in
    the trace of the robot, and what the call does is given by an
    environment that may look at everything that happened before.  The
    attributes [cameras] and [is_connected] are created by the parent class
    [ManipulatorRobot], whose source is not part of this development: a
    robot is taken with the values they have. *)

Module DummyRobot.

(** The exceptions of the robot.  [RobotDeviceNotConnectedError] is raised
    at three places, told apart by their message; the one of [connect] is
    raised [from] the exception of the camera. *)
Inductive error : Type :=
| RobotDeviceAlreadyConnectedError                    (* line 28 *)
| RobotDeviceNotConnectedError (why : not_connected)
| ValueError (camera : string)                        (* line 88 *)
| RuntimeError (camera : string) (cause : error)      (* line 99 *)
| CameraError (what : string)       (* any Exception raised by a camera *)
with not_connected : Type :=
| FailedToConnectCamera (name : string) (cause : error) (* line 45 *)
| ConnectBeforeCapturing                              (* line 78 *)
| ConnectBeforeSendingActions.                        (* line 110 *)

(** What a call does: it returns or it raises. *)
Inductive outcome (A : Type) : Type :=
| Returns (a : A)
| Raises (e : error).
Arguments Returns {A} a.
Arguments Raises {A} e.

(** A numpy array, as [camera.read()] returns it when it returns an image
    (the source assumes so, line 85); [torch.from_numpy] accepts it. *)
Definition image : Type := list Z.

Inductive dtype : Type := float32 | uint8.

Inductive tensor : Type :=
| from_numpy (img : image)                  (* torch.from_numpy(image) *)
| empty (size : nat) (d : dtype).           (* torch.empty(size, dtype=d) *)

(** What the robot looks at in a camera object besides calling it. *)
Record camera : Type := mkCamera {
  config_type : option string;   (* config.type, when both attributes exist *)
  has_disconnect : bool          (* hasattr(camera_instance, 'disconnect') *)
}.

(** [camera_instance.config.type if hasattr(...) and hasattr(...) else 'N/A'] *)
Definition camera_type (c : camera) : string :=
  match config_type c with
  | Some t => t
  | None => "N/A"
  end.

Inductive log_msg : Type :=
| MsgAttemptConnect (n : nat)
| MsgConnecting (name type : string)
| MsgFailedConnect (name : string) (e : error)
| MsgConnected
| MsgAttemptDisconnect (n : nat)
| MsgDisconnecting (name type : string)
| MsgErrorDisconnect (name : string) (e : error)
| MsgDisconnected
| MsgFailedRead (key : string) (e : error)
| MsgReceivedAction (action : tensor)
| MsgDelWhileConnected
| MsgDelError (e : error).

Inductive event : Type :=
| Log (lvl : level) (m : log_msg)
| CamConnect (name : string) (r : outcome unit)       (* camera.connect() *)
| CamDisconnect (name : string) (r : outcome unit)    (* camera.disconnect() *)
| CamRead (name : string) (r : outcome (option image)). (* camera.read() *)

(** The cameras' behaviour: the answer of a call may depend on the camera
    and on all that happened so far. *)
Record environment : Type := mkEnvironment {
  connect_r : list event -> string -> outcome unit;
  disconnect_r : list event -> string -> outcome unit;
  read_r : list event -> string -> outcome (option image)
}.

(** ** Dictionaries

    A Python [dict]: keys in insertion order, each key once. *)
Definition dict (V : Type) : Type := list (string * V).

Fixpoint dict_get {V} (d : dict V) (k : string) : option V :=
  match d with
  | [] => None
  | (k', v) :: rest => if String.eqb k' k then Some v else dict_get rest k
  end.

(** [d[k] = v]: the value is replaced in place, or the key is appended. *)
Fixpoint dict_set {V} (d : dict V) (k : string) (v : V) : dict V :=
  match d with
  | [] => [(k, v)]
  | (k', v') :: rest =>
      if String.eqb k' k then (k', v) :: rest
      else (k', v') :: dict_set rest k v
  end.

Definition keys {V} (d : dict V) : list string := map fst d.

(** ** The robot *)

Record robot : Type := mkRobot {
  cameras : dict camera;
  is_connected : bool;
  trace : list event
}.

(** The loop of [connect] (lines 31-45): the first camera that fails to
    connect ends it. *)
Fixpoint connect_cameras (env : environment) (cams : dict camera)
  (tr : list event) : list event * outcome unit :=
  match cams with
  | [] => (tr, Returns tt)
  | (name, camera_instance) :: rest =>
      let tr1 :=
        tr ++ [Log INFO (MsgConnecting name (camera_type camera_instance))] in
      let r := connect_r env tr1 name in
      let tr2 := tr1 ++ [CamConnect name r] in
      match r with
      | Returns _ => connect_cameras env rest tr2
      | Raises e =>
          (tr2 ++ [Log ERROR (MsgFailedConnect name e)],
           Raises (RobotDeviceNotConnectedError (FailedToConnectCamera name e)))
      end
  end.

Definition connect (env : environment) (self : robot)
  : robot * outcome unit :=
  if is_connected self then (self, Raises RobotDeviceAlreadyConnectedError)
  else
    let tr0 :=
      trace self ++
      [Log INFO (MsgAttemptConnect (List.length (cameras self)))] in
    match connect_cameras env (cameras self) tr0 with
    | (tr, Returns _) =>
        (mkRobot (cameras self) true (tr ++ [Log INFO MsgConnected]),
         Returns tt)
    | (tr, Raises e) =>
        (mkRobot (cameras self) (is_connected self) tr, Raises e)
    end.

(** The loop of [disconnect] (lines 61-71): a camera that fails to
    disconnect is logged and the loop goes on. *)
Fixpoint disconnect_cameras (env : environment) (cams : dict camera)
  (tr : list event) : list event :=
  match cams with
  | [] => tr
  | (name, camera_instance) :: rest =>
      let tr1 :=
        tr ++ [Log INFO (MsgDisconnecting name (camera_type camera_instance))] in
      if has_disconnect camera_instance then
        let r := disconnect_r env tr1 name in
        let tr2 := tr1 ++ [CamDisconnect name r] in
        match r with
        | Returns _ => disconnect_cameras env rest tr2
        | Raises e =>
            disconnect_cameras env rest
              (tr2 ++ [Log ERROR (MsgErrorDisconnect name e)])
        end
      else disconnect_cameras env rest tr1
  end.

Definition disconnect (env : environment) (self : robot)
  : robot * outcome unit :=
  let tr0 :=
    trace self ++
    [Log INFO (MsgAttemptDisconnect (List.length (cameras self)))] in
  (mkRobot (cameras self) false
           (disconnect_cameras env (cameras self) tr0 ++
            [Log INFO MsgDisconnected]),
   Returns tt).

(** [f"observation.images.{key}"] *)
Definition image_key (key : string) : string :=
  ("observation.images." ++ key)%string.

(** The loop of [capture_observation] (lines 83-99): an image that is
    [None] raises [ValueError] inside the [try]; any exception there is
    logged and re-raised as [RuntimeError]. *)
Fixpoint read_cameras (env : environment) (cams : dict camera)
  (tr : list event) (obs_dict : dict tensor)
  : list event * outcome (dict tensor) :=
  match cams with
  | [] => (tr, Returns obs_dict)
  | (key, camera_instance) :: rest =>
      let r := read_r env tr key in
      let tr1 := tr ++ [CamRead key r] in
      match r with
      | Returns (Some img) =>
          read_cameras env rest tr1
            (dict_set obs_dict (image_key key) (from_numpy img))
      | Returns None =>
          (tr1 ++ [Log ERROR (MsgFailedRead key (ValueError key))],
           Raises (RuntimeError key (ValueError key)))
      | Raises e =>
          (tr1 ++ [Log ERROR (MsgFailedRead key e)],
           Raises (RuntimeError key e))
      end
  end.

Definition capture_observation (env : environment) (self : robot)
  : robot * outcome (dict tensor) :=
  if negb (is_connected self) then
    (self, Raises (RobotDeviceNotConnectedError ConnectBeforeCapturing))
  else
    match read_cameras env (cameras self) (trace self) [] with
    | (tr, Returns obs_dict) =>
        (mkRobot (cameras self) (is_connected self) tr,
         Returns (dict_set obs_dict "observation.state" (empty 0 float32)))
    | (tr, Raises e) =>
        (mkRobot (cameras self) (is_connected self) tr, Raises e)
    end.

Definition send_action (self : robot) (action : tensor)
  : robot * outcome tensor :=
  if negb (is_connected self) then
    (self,
     Raises (RobotDeviceNotConnectedError ConnectBeforeSendingActions))
  else
    (mkRobot (cameras self) (is_connected self)
             (trace self ++ [Log DEBUG (MsgReceivedAction action)]),
     Returns (empty 0 float32)).

(** One entry of [features]: [{"dtype": ..., "shape": ..., "names": ...}]. *)
Record feature : Type := mkFeature {
  feature_dtype : string;
  feature_shape : list nat;
  feature_names : list string
}.

(** [{"dtype": "float32", "shape": (0,), "names": []}] *)
Definition empty_vector : feature := mkFeature "float32" [0%nat] [].

(** The property [features]; [camera_features] is what the parent class
    gives for the cameras. *)
Definition features (camera_features : dict feature) : dict feature :=
  let feat := camera_features in
  let feat := dict_set feat "observation.state" empty_vector in
  let feat := dict_set feat "action" empty_vector in
  feat.

(** [__del__], on an object that has its attribute [is_connected]. *)
Definition del (env : environment) (self : robot) : robot :=
  if is_connected self then
    let self1 :=
      mkRobot (cameras self) (is_connected self)
              (trace self ++ [Log INFO MsgDelWhileConnected]) in
    match disconnect env self1 with
    | (self2, Returns _) => self2
    | (self2, Raises e) =>
        mkRobot (cameras self2) (is_connected self2)
                (trace self2 ++ [Log ERROR (MsgDelError e)])
    end
  else self.

(** ** Notions used by the properties *)

(** The calls made to the cameras with what they did, in the order of the
    calls. *)
Definition connect_results (tr : list event) : list (string * outcome unit) :=
  flat_map (fun ev => match ev with CamConnect n r => [(n, r)] | _ => [] end)
           tr.

Definition disconnect_results (tr : list event)
  : list (string * outcome unit) :=
  flat_map (fun ev => match ev with CamDisconnect n r => [(n, r)] | _ => [] end)
           tr.

Definition read_results (tr : list event)
  : list (string * outcome (option image)) :=
  flat_map (fun ev => match ev with CamRead n r => [(n, r)] | _ => [] end) tr.

(** The images that the cameras returned, as entries of an observation, in
    the order of the reads. *)
Definition images_read (tr : list event) : dict tensor :=
  flat_map (fun ev => match ev with
                      | CamRead n (Returns (Some img)) =>
                          [(image_key n, from_numpy img)]
                      | _ => []
                      end) tr.

(** The errors that were logged while disconnecting. *)
Definition disconnect_errors_logged (tr : list event)
  : list (string * outcome unit) :=
  flat_map (fun ev => match ev with
                      | Log ERROR (MsgErrorDisconnect n e) => [(n, Raises e)]
                      | _ => []
                      end) tr.

Definition raised {A} (r : string * outcome A) : bool :=
  match snd r with
  | Raises _ => true
  | Returns _ => false
  end.

(** The cameras that have a method [disconnect]. *)
Definition with_disconnect (cams : dict camera) : dict camera :=
  filter (fun c => has_disconnect (snd c)) cams.

Definition dtype_name (d : dtype) : string :=
  match d with
  | float32 => "float32"
  | uint8 => "uint8"
  end.

(** A tensor has the data type and the shape that a feature declares
    (tensors made from an image are declared by the parent class). *)
Definition tensor_matches (f : feature) (t : tensor) : Prop :=
  match t with
  | empty size d =>
      feature_dtype f = dtype_name d /\ feature_shape f = [size]
  | from_numpy _ => False
  end.

(** ** Scenarios *)

Definition cam_opencv : camera := mkCamera (Some "opencv"%string) true.
Definition cam_plain : camera := mkCamera None false.

(** Every camera answers; an image is one pixel per letter of the name. *)
Definition env_healthy : environment :=
  mkEnvironment (fun _ _ => Returns tt) (fun _ _ => Returns tt)
                (fun _ n => Returns (Some [Z.of_nat (String.length n)])).

(** The camera [wrist] fails to connect, has nothing to read and fails to
    disconnect. *)
Definition env_wrist_broken : environment :=
  mkEnvironment
    (fun _ n => if String.eqb n "wrist" then Raises (CameraError "no device")
                else Returns tt)
    (fun _ n => if String.eqb n "wrist" then Raises (CameraError "busy")
                else Returns tt)
    (fun _ n => if String.eqb n "wrist" then Returns None
                else Returns (Some [Z.of_nat (String.length n)])).

Definition three_cameras : dict camera :=
  [("top"%string, cam_opencv); ("wrist"%string, cam_opencv);
   ("side"%string, cam_plain)].

Definition fresh_robot : robot := mkRobot three_cameras false [].
Definition connected_robot : robot := mkRobot three_cameras true [].

End DummyRobot.
(** * Properties *)

(** ** Computations that only append to the trace *)

Lemma extend_nil (s : state) : extend s [] = s.
Proof. destruct s; unfold extend; simpl; now rewrite app_nil_r. Qed.

Lemma extend_extend (s : state) (l1 l2 : list event) :
  extend (extend s l1) l2 = extend s (l1 ++ l2).
Proof. unfold extend; simpl; now rewrite app_assoc. Qed.

Lemma trace_extend (s : state) (l : list event) :
  trace (extend s l) = trace s ++ l.
Proof. reflexivity. Qed.

Lemma oblivious_ret {A} (a : A) : oblivious (ret a).
Proof. exists [], (Some (Ok a)); intros s; unfold ret; now rewrite extend_nil. Qed.

Lemma oblivious_emit (ev : event) : oblivious (emit ev).
Proof. now exists [ev], (Some (Ok tt)). Qed.

Lemma oblivious_log lvl m : oblivious (log lvl m).
Proof. apply oblivious_emit. Qed.

Lemma oblivious_call {A} (ev : event) (r : result A) : oblivious (call ev r).
Proof. now exists [ev], (Some r). Qed.

Lemma oblivious_bind {A B} (m : M A) (k : A -> M B) :
  oblivious m -> (forall a, oblivious (k a)) -> oblivious (bind m k).
Proof.
  intros (evs & r & Hm) Hk.
  destruct r as [[a | e] | ].
  - destruct (Hk a) as (evs' & r' & Hka).
    exists (evs ++ evs'), r'; intros s; unfold bind.
    now rewrite Hm, Hka, extend_extend.
  - exists evs, (Some (Raise e)); intros s; unfold bind; now rewrite Hm.
  - exists evs, None; intros s; unfold bind; now rewrite Hm.
Qed.

Lemma oblivious_try_except {A} (m : M A) (h : exn -> M A) :
  oblivious m -> (forall e, oblivious (h e)) -> oblivious (try_except m h).
Proof.
  intros (evs & r & Hm) Hh.
  destruct r as [[a | e] | ].
  - exists evs, (Some (Ok a)); intros s; unfold try_except; now rewrite Hm.
  - destruct (Hh e) as (evs' & r' & He).
    exists (evs ++ evs'), r'; intros s; unfold try_except.
    now rewrite Hm, He, extend_extend.
  - exists evs, None; intros s; unfold try_except; now rewrite Hm.
Qed.

Create HintDb oblivious.
#[export] Hint Resolve oblivious_ret oblivious_emit oblivious_log
  oblivious_call : oblivious.

(** Splits a computation along its binds and handlers and decides the
    branches on the values they bind. *)
Ltac oblivious_step :=
  match goal with
  | |- oblivious (bind _ _) => apply oblivious_bind
  | |- oblivious (try_except _ _) => apply oblivious_try_except
  | |- forall _, _ => intro
  | |- oblivious (if ?b then _ else _) => destruct b
  | |- oblivious (match ?x with _ => _ end) => destruct x
  | |- oblivious (let '(_, _) := ?x in _) => destruct x
  | |- _ => solve [auto with oblivious]
  end.

Ltac prove_oblivious := repeat oblivious_step.

Lemma oblivious_publish_with_reconnect a e buffer :
  oblivious (publish_with_reconnect a e buffer).
Proof. unfold publish_with_reconnect; prove_oblivious. Qed.

Lemma oblivious_pace a fd t0 e : oblivious (pace a fd t0 e).
Proof. unfold pace; prove_oblivious. Qed.

Lemma oblivious_resize_and_encode w a fr : oblivious (resize_and_encode w a fr).
Proof. unfold resize_and_encode; prove_oblivious. Qed.

#[export] Hint Resolve oblivious_publish_with_reconnect oblivious_pace
  oblivious_resize_and_encode : oblivious.

Lemma oblivious_loop_body w a fd e : oblivious (loop_body w a fd e).
Proof. unfold loop_body; prove_oblivious. Qed.

Lemma loop_body_extend w a fd e s :
  loop_body w a fd e s = (extend s (pass_events w a fd e), pass_ctrl w a fd e).
Proof.
  destruct (oblivious_loop_body w a fd e) as (evs & r & H).
  unfold pass_events, pass_ctrl; now rewrite !H.
Qed.

(** ** One pass, case by case *)

Arguments fsub : simpl never.
Arguments Qlt_bool : simpl never.
Arguments fdiv_int : simpl never.

(** Runs a pass symbolically, splitting on every answer it consults
    (innermost scrutinee first). *)
Ltac split_scrutinee :=
  match goal with
  | |- context [match ?x with _ => _ end] =>
      lazymatch x with
      | context [match _ with _ => _ end] => fail
      | _ => destruct x eqn:?
      end
  end.

Ltac run_pass :=
  unfold pass_events, pass_ctrl, publish_events, publish_ctrl, encode_events,
    encode_result, pace_events, loop_body, resize_and_encode,
    publish_with_reconnect, pace, bind, try_except, call, emit, log, ret,
    extend, initial_state;
  simpl;
  repeat (split_scrutinee; simpl).

Lemma pass_ctrl_terminates w a fd e : pass_ctrl w a fd e <> None.
Proof. run_pass; discriminate. Qed.

(** ** The loop, one pass at a time *)

Lemma while_loop_S fuel w a fd k s :
  while_loop (S fuel) w a fd k s =
  if event_set_at w (List.length (trace s)) then
    (extend s [EvIsSet true], Some (Ok tt))
  else
    let s1 := extend s (EvIsSet false :: pass_events w a fd (iters w k)) in
    match pass_ctrl w a fd (iters w k) with
    | Some (Ok Next) => while_loop fuel w a fd (S k) s1
    | Some (Ok Break) => (s1, Some (Ok tt))
    | Some (Raise ex) => (s1, Some (Raise ex))
    | None => (s1, None)
    end.
Proof.
  cbn [while_loop]. unfold bind at 1, is_set, call.
  destruct (event_set_at w (List.length (trace s))); [reflexivity|].
  unfold bind at 1. rewrite loop_body_extend, extend_extend. cbn [app].
  destruct (pass_ctrl w a fd (iters w k)) as [[[|]|]|]; reflexivity.
Qed.

(** ** Counting events *)

Lemma count_app p l1 l2 : count p (l1 ++ l2) = (count p l1 + count p l2)%nat.
Proof. unfold count; now rewrite filter_app, length_app. Qed.

Lemma count_cons p x l :
  count p (x :: l) = ((if p x then 1 else 0) + count p l)%nat.
Proof. unfold count; simpl; now destruct (p x). Qed.

Lemma count_skipn_le p n l : (count p (skipn n l) <= count p l)%nat.
Proof.
  rewrite <- (firstn_skipn n l) at 2. rewrite count_app. lia.
Qed.

Lemma reads_from_app n l1 l2 :
  (reads_from n (l1 ++ l2) <= reads_from n l1 + count is_read l2)%nat.
Proof.
  unfold reads_from. rewrite skipn_app, count_app.
  pose proof (count_skipn_le is_read (n - List.length l1) l2). lia.
Qed.

Lemma reads_from_short n l : (List.length l <= n)%nat -> reads_from n l = 0%nat.
Proof. intros H; unfold reads_from; now rewrite skipn_all2. Qed.

Lemma count_zero_Forall p l :
  count p l = 0%nat <-> Forall (fun ev => p ev = false) l.
Proof.
  unfold count; induction l as [|x l IH]; simpl.
  - split; auto.
  - destruct (p x) eqn:Hx; simpl.
    + split; [discriminate|]. intros H; inversion H; congruence.
    + rewrite IH. split; [now constructor|]. intros H; now inversion H.
Qed.

(** ** The parts of a pass *)

Lemma resize_and_encode_extend w a fr s :
  resize_and_encode w a fr s =
  (extend s (encode_events w a fr), encode_result w a fr).
Proof.
  destruct (oblivious_resize_and_encode w a fr) as (evs & r & H).
  unfold encode_events, encode_result; now rewrite !H.
Qed.

Lemma publish_with_reconnect_extend a e buf s :
  publish_with_reconnect a e buf s =
  (extend s (publish_events a e buf), publish_ctrl a e buf).
Proof.
  destruct (oblivious_publish_with_reconnect a e buf) as (evs & r & H).
  unfold publish_events, publish_ctrl; now rewrite !H.
Qed.

Lemma pace_result a fd t0 e : snd (pace a fd t0 e initial_state) = Some (Ok tt).
Proof. run_pass; reflexivity. Qed.

Lemma pace_extend a fd t0 e s :
  pace a fd t0 e s = (extend s (pace_events a fd t0 e), Some (Ok tt)).
Proof.
  destruct (oblivious_pace a fd t0 e) as (evs & r & H).
  pose proof (pace_result a fd t0 e) as Hr.
  unfold pace_events; rewrite !H in *; simpl in *; now subst.
Qed.

Lemma publish_ctrl_cases a e buf :
  publish_ctrl a e buf = Some (Ok Next) \/ publish_ctrl a e buf = Some (Ok Break).
Proof. run_pass; auto. Qed.

(** A pass whose capture failed. *)
Lemma loop_body_capture_failed w a fd e rf s :
  read_r e = Ok rf -> capture_failed rf = true ->
  loop_body w a fd e s =
  (extend s [EvMonotonic (t_start e); EvRead (read_r e);
             EvLog WARNING MsgCaptureFailed; EvSleep (1 # 10)],
   Some (Ok Next)).
Proof.
  intros Hr Hf. unfold loop_body, bind, call, log, emit, ret.
  rewrite Hr. destruct rf as [[|] [fr|]]; try discriminate;
    now rewrite !extend_extend.
Qed.

(** A pass whose capture and encoding succeeded. *)
Lemma loop_body_published w a fd e fr buf s :
  read_r e = Ok (true, Some fr) ->
  encode_result w a fr = Some (Ok (true, buf)) ->
  loop_body w a fd e s =
  let work := EvMonotonic (t_start e) :: EvRead (read_r e) ::
              encode_events w a fr ++ publish_events a e buf in
  match publish_ctrl a e buf with
  | Some (Ok Break) => (extend s work, Some (Ok Break))
  | _ => (extend s (work ++ pace_events a fd (t_start e) e), Some (Ok Next))
  end.
Proof.
  intros Hr He. unfold loop_body, bind, call. rewrite Hr.
  rewrite resize_and_encode_extend, He.
  rewrite publish_with_reconnect_extend.
  destruct (publish_ctrl_cases a e buf) as [Hc | Hc]; rewrite Hc.
  - rewrite pace_extend. unfold ret. rewrite !extend_extend.
    cbn [app]. now rewrite <- !app_assoc.
  - unfold ret. rewrite !extend_extend. now cbn [app].
Qed.

(** ** Properties kept along the trace *)

Section Preserves.
Variable P : event -> Prop.

Lemma preserves_ret {A} (a : A) : preserves P (ret a).
Proof. intros s H; exact H. Qed.

Lemma preserves_eval {A} (r : result A) : preserves P (eval r).
Proof. intros s H; exact H. Qed.

Lemma preserves_emit ev : P ev -> preserves P (emit ev).
Proof.
  intros Hev s H; simpl. apply Forall_app; split; [exact H | now constructor].
Qed.

Lemma preserves_log lvl m : P (EvLog lvl m) -> preserves P (log lvl m).
Proof. apply preserves_emit. Qed.

Lemma preserves_call {A} ev (r : result A) : P ev -> preserves P (call ev r).
Proof.
  intros Hev s H; simpl. apply Forall_app; split; [exact H | now constructor].
Qed.

Lemma preserves_bind {A B} (m : M A) (k : A -> M B) :
  preserves P m -> (forall a, preserves P (k a)) -> preserves P (bind m k).
Proof.
  intros Hm Hk s H. unfold bind. specialize (Hm s H).
  destruct (m s) as [s' [[a | e] | ]]; simpl in *; auto.
  now apply Hk.
Qed.

Lemma preserves_try_except {A} (m : M A) (h : exn -> M A) :
  preserves P m -> (forall e, preserves P (h e)) ->
  preserves P (try_except m h).
Proof.
  intros Hm Hh s H. unfold try_except. specialize (Hm s H).
  destruct (m s) as [s' [[a | e] | ]]; simpl in *; auto.
  now apply Hh.
Qed.

Lemma preserves_try_finally {A} (m : M A) (fin : M unit) :
  preserves P m -> preserves P fin -> preserves P (try_finally m fin).
Proof.
  intros Hm Hf s H. unfold try_finally. specialize (Hm s H).
  destruct (m s) as [s' [r | ]]; simpl in *; auto.
  specialize (Hf s' Hm).
  destruct (fin s') as [s'' [[u | e] | ]]; simpl in *; auto.
Qed.

Lemma preserves_bind_cap : preserves P bind_cap.
Proof. intros s H; exact H. Qed.

Lemma preserves_bind_nc : preserves P bind_nc.
Proof. intros s H; exact H. Qed.

Lemma preserves_get_cap : preserves P get_cap.
Proof. intros s H; exact H. Qed.

Lemma preserves_get_nc : preserves P get_nc.
Proof. intros s H; exact H. Qed.

Lemma preserves_is_set w : (forall b, P (EvIsSet b)) -> preserves P (is_set w).
Proof. intros Hb s H. unfold is_set. now apply preserves_call. Qed.

Lemma preserves_loop_body w a fd e :
  Forall P (pass_events w a fd e) -> preserves P (loop_body w a fd e).
Proof.
  intros Hp s H. rewrite loop_body_extend; simpl.
  apply Forall_app; now split.
Qed.

Lemma preserves_while_loop w a fd :
  (forall b, P (EvIsSet b)) ->
  (forall k, Forall P (pass_events w a fd (iters w k))) ->
  forall fuel k, preserves P (while_loop fuel w a fd k).
Proof.
  intros Hb Hp fuel; induction fuel as [|fuel IH]; intros k.
  - intros s H; exact H.
  - cbn [while_loop]. apply preserves_bind; [now apply preserves_is_set|].
    intros [|]; [apply preserves_ret|].
    apply preserves_bind; [now apply preserves_loop_body|].
    intros [|]; [apply IH | apply preserves_ret].
Qed.
End Preserves.

(** Splits the script along its structure; the events it emits outside the
    loop are left as side conditions. *)
Ltac preserves_step :=
  match goal with
  | |- preserves _ (bind _ _) => apply preserves_bind
  | |- preserves _ (try_except _ _) => apply preserves_try_except
  | |- preserves _ (try_finally _ _) => apply preserves_try_finally
  | |- preserves _ (ret _) => apply preserves_ret
  | |- preserves _ (emit _) => apply preserves_emit
  | |- preserves _ (log _ _) => apply preserves_log
  | |- preserves _ (call _ _) => apply preserves_call
  | |- preserves _ bind_cap => apply preserves_bind_cap
  | |- preserves _ bind_nc => apply preserves_bind_nc
  | |- preserves _ get_cap => apply preserves_get_cap
  | |- preserves _ get_nc => apply preserves_get_nc
  | |- preserves _ (is_set _) => apply preserves_is_set
  | |- preserves _ (eval _) => apply preserves_eval
  | |- forall _, _ => intro
  | |- preserves _ (if ?b then _ else _) => destruct b
  | |- preserves _ (match ?x with _ => _ end) => destruct x
  end.












(** The scenario of the specification: two failed captures, then a valid
    frame: one payload published, two waits of 0.1 s before it. *)
Example two_failures_then_valid_frame :
  let tr := trace (fst (try_body 3 world_two_failures default_args initial_state)) in
  count is_publish tr = 1%nat /\
  filter is_sleep (firstn 30 tr) = [EvSleep (1 # 10); EvSleep (1 # 10)] /\
  nth_error tr 30 =
    Some (EvPublish "camera.image.raw" [90; 480; 640; 1; 2; 3] (Ok tt)).
Proof. vm_compute. repeat split. Qed.


(** ** Resizing *)





(** ** Publishing *)

Lemma count_disjoint p q l :
  Forall (fun ev => q ev = true) l ->
  (forall ev, q ev = true -> p ev = false) ->
  count p l = 0%nat.
Proof.
  intros Hq Hpq. apply count_zero_Forall.
  eapply Forall_impl; [|exact Hq]. auto.
Qed.

Lemma encode_events_kind w a fr :
  Forall (fun ev => encoder_event ev = true) (encode_events w a fr).
Proof. run_pass; repeat constructor. Qed.

Lemma pace_events_kind a fd t0 e :
  Forall (fun ev => pacing_event ev = true) (pace_events a fd t0 e).
Proof. run_pass; repeat constructor. Qed.

(** The pass of the loop in which a frame was captured and encoded. *)
Lemma while_loop_published fuel w a fd k s fr buf :
  event_set_at w (List.length (trace s)) = false ->
  read_r (iters w k) = Ok (true, Some fr) ->
  encode_result w a fr = Some (Ok (true, buf)) ->
  while_loop (S fuel) w a fd k s =
  let e := iters w k in
  let work := EvIsSet false :: EvMonotonic (t_start e) :: EvRead (read_r e) ::
              encode_events w a fr ++ publish_events a e buf in
  match publish_ctrl a e buf with
  | Some (Ok Break) => (extend s work, Some (Ok tt))
  | _ => while_loop fuel w a fd (S k)
           (extend s (work ++ pace_events a fd (t_start e) e))
  end.
Proof.
  intros Hs Hr He. rewrite while_loop_S, Hs. cbv zeta.
  unfold pass_events, pass_ctrl.
  rewrite (loop_body_published w a fd (iters w k) fr buf initial_state Hr He).
  cbv zeta.
  destruct (publish_ctrl_cases a (iters w k) buf) as [Hc | Hc]; rewrite Hc;
    reflexivity.
Qed.

Lemma publish_disconnected a e buf :
  publish_r e = Raise ConnectionClosedError ->
  publish_events a e buf =
    EvPublish (subject a) buf (Raise ConnectionClosedError) ::
    EvLog ERROR MsgConnectionClosed ::
    EvIsConnected (connected_r e) ::
    (if connected_r e then []
     else [EvNcConnect [nats_server_url a] 5 (reconnect_r e);
           match reconnect_r e with
           | Ok _ => EvLog INFO MsgReconnected
           | Raise ex => EvLog ERROR (MsgReconnectFailed ex)
           end]) /\
  publish_ctrl a e buf =
    Some (Ok (if connected_r e then Next
              else match reconnect_r e with Ok _ => Next | Raise _ => Break end)).
Proof.
  intros Hp. unfold publish_events, publish_ctrl, publish_with_reconnect,
    try_except, bind, call, log, emit, ret, initial_state, extend.
  rewrite Hp. cbn.
  destruct (connected_r e); cbn; [now split|].
  destruct (reconnect_r e); cbn; now split.
Qed.

Lemma publish_other_error a e buf ex :
  publish_r e = Raise ex -> ex <> ConnectionClosedError ->
  publish_events a e buf =
    [EvPublish (subject a) buf (Raise ex); EvLog ERROR (MsgPublishError ex)] /\
  publish_ctrl a e buf = Some (Ok Next).
Proof.
  intros Hp Hne. unfold publish_events, publish_ctrl, publish_with_reconnect,
    try_except, bind, call, log, emit, ret, initial_state, extend.
  rewrite Hp. destruct ex; cbn; now split.
Qed.

Lemma connect_nats_url w a s :
  exists l,
    trace (fst (connect_nats w a s)) =
    trace s ++ EvLog INFO (MsgConnecting (nats_server_url a)) ::
               EvNatsConnect (nats_server_url a) 5 (connect_r w) :: l.
Proof.
  unfold connect_nats, try_except, bind, call, log, emit, ret, bind_nc, extend.
  cbn. destruct (connect_r w) as [u | ex]; cbn.
  - eexists. rewrite <- !app_assoc. reflexivity.
  - destruct ex; cbn; eexists; rewrite <- !app_assoc; reflexivity.
Qed.

(** Two runs that differ only in how their traces are bracketed. *)
Ltac same_trace :=
  try reflexivity;
  repeat (f_equal; []);
  cbn [app]; rewrite <- ?app_assoc; cbn [app]; reflexivity.

Ltac no_such_event :=
  first [ eapply count_disjoint; [apply encode_events_kind|]
        | eapply count_disjoint; [apply pace_events_kind|] ];
  let ev := fresh "ev" in
  intros ev; destruct ev; simpl; try congruence;
  repeat match goal with
         | |- context [match ?x with _ => _ end] => destruct x; simpl
         end;
  congruence.

Lemma pass_published w a fd e fr buf :
  read_r e = Ok (true, Some fr) ->
  encode_result w a fr = Some (Ok (true, buf)) ->
  publish_ctrl a e buf = Some (Ok Next) ->
  pass_events w a fd e =
    EvMonotonic (t_start e) :: EvRead (read_r e) ::
    encode_events w a fr ++ publish_events a e buf ++
    pace_events a fd (t_start e) e /\
  pass_ctrl w a fd e = Some (Ok Next).
Proof.
  intros Hr He Hc. unfold pass_events, pass_ctrl.
  rewrite (loop_body_published w a fd e fr buf initial_state Hr He).
  cbv zeta. rewrite Hc. cbn. now rewrite <- app_assoc.
Qed.

Section FrameEncoded.
(** Pass [k] of a run, reached in state [s]: the loop test finds the event
    clear, the capture returns the frame [fr], and resizing and encoding
    it yields the payload [buf]. *)
Variables (w : world) (a : args) (fuel : nat) (fd : Q) (k : nat) (s : state).
Variables (fr : frame) (buf : bytes).
Hypothesis event_clear : event_set_at w (List.length (trace s)) = false.
Hypothesis captured : read_r (iters w k) = Ok (true, Some fr).
Hypothesis encoded : encode_result w a fr = Some (Ok (true, buf)).

(** C2: when a publish raises the connection-closed error, the loop logs
    it and asks the client whether it is connected; only when the answer is
    no does it call connect, once, on the server list made of the URL given
    to the first connect, with the timeout of 5 s; after a successful
    reconnect (or when none was needed) the pass goes on to its pacing and
    the next pass starts, the payload being published no second time; after
    a failed reconnect the loop is left at once. *)
Theorem C2_disconnect_single_bounded_reconnect :
  publish_r (iters w k) = Raise ConnectionClosedError ->
  let e := iters w k in
  let upto_query :=
    EvIsSet false :: EvMonotonic (t_start e) :: EvRead (read_r e) ::
    encode_events w a fr ++
    [EvPublish (subject a) buf (Raise ConnectionClosedError);
     EvLog ERROR MsgConnectionClosed;
     EvIsConnected (connected_r e)] in
  let pacing := pace_events a fd (t_start e) e in
  match connected_r e, reconnect_r e with
  | true, _ =>
      while_loop (S fuel) w a fd k s =
      while_loop fuel w a fd (S k) (extend s (upto_query ++ pacing))
  | false, Ok _ =>
      while_loop (S fuel) w a fd k s =
      while_loop fuel w a fd (S k)
        (extend s (upto_query ++
                   EvNcConnect [nats_server_url a] 5 (reconnect_r e) ::
                   EvLog INFO MsgReconnected :: pacing))
  | false, Raise ex =>
      while_loop (S fuel) w a fd k s =
      (extend s (upto_query ++
                 [EvNcConnect [nats_server_url a] 5 (Raise ex);
                  EvLog ERROR (MsgReconnectFailed ex)]),
       Some (Ok tt))
  end /\
  count is_publish (encode_events w a fr ++ pacing) = 0%nat /\
  count is_reconnect (encode_events w a fr ++ pacing) = 0%nat /\
  (forall s0, exists l,
      trace (fst (connect_nats w a s0)) =
      trace s0 ++ EvLog INFO (MsgConnecting (nats_server_url a)) ::
                  EvNatsConnect (nats_server_url a) 5 (connect_r w) :: l).
Proof.
  intros Hp e upto_query pacing.
  split; [|split; [|split]].
  - rewrite (while_loop_published fuel w a fd k s fr buf
               event_clear captured encoded).
    cbv zeta.
    destruct (publish_disconnected a (iters w k) buf Hp) as [Hev Hc].
    rewrite Hev, Hc. subst upto_query pacing e.
    destruct (connected_r (iters w k)); [same_trace|].
    destruct (reconnect_r (iters w k)) as [u | ex]; same_trace.
  - rewrite count_app.
    replace (count is_publish (encode_events w a fr)) with 0%nat
      by (symmetry; no_such_event).
    subst pacing; no_such_event.
  - rewrite count_app.
    replace (count is_reconnect (encode_events w a fr)) with 0%nat
      by (symmetry; no_such_event).
    subst pacing; no_such_event.
  - intros s0; apply connect_nats_url.
Qed.

(** C9: a publish that raises anything but the connection-closed error is
    logged as an error; the pass goes on to its pacing and the next pass
    starts: the loop is not left. *)
Theorem C9_other_publish_error_continues :
  forall ex,
    publish_r (iters w k) = Raise ex ->
    ex <> ConnectionClosedError ->
    let e := iters w k in
    while_loop (S fuel) w a fd k s =
    while_loop fuel w a fd (S k)
      (extend s (EvIsSet false :: EvMonotonic (t_start e) ::
                 EvRead (read_r e) ::
                 encode_events w a fr ++
                 [EvPublish (subject a) buf (Raise ex);
                  EvLog ERROR (MsgPublishError ex)] ++
                 pace_events a fd (t_start e) e)).
Proof.
  intros ex Hp Hne e.
  rewrite (while_loop_published fuel w a fd k s fr buf
             event_clear captured encoded).
  cbv zeta.
  destruct (publish_other_error a (iters w k) buf ex Hp Hne) as [Hev Hc].
  rewrite Hev, Hc. subst e. same_trace.
Qed.

(** C10: when a publish raises the connection-closed error and the client
    reports itself connected when asked, the pass makes no connect call,
    logs the lost connection, logs neither a reconnect nor a failed
    reconnect, and the next pass starts. *)
Theorem C10_client_already_reconnected :
  publish_r (iters w k) = Raise ConnectionClosedError ->
  connected_r (iters w k) = true ->
  let pass := EvIsSet false :: pass_events w a fd (iters w k) in
  while_loop (S fuel) w a fd k s =
    while_loop fuel w a fd (S k) (extend s pass) /\
  count is_reconnect pass = 0%nat /\
  count is_reconnect_log pass = 0%nat /\
  In (EvLog ERROR MsgConnectionClosed) pass /\
  In (EvIsConnected true) pass.
Proof.
  intros Hp Hconn pass.
  destruct (publish_disconnected a (iters w k) buf Hp) as [Hev Hc].
  rewrite Hconn in Hev, Hc.
  destruct (pass_published w a fd (iters w k) fr buf captured encoded Hc)
    as [Hpe Hpc].
  subst pass. rewrite Hpe, Hev.
  split; [|split; [|split; [|split]]].
  - rewrite while_loop_S, event_clear. cbv zeta. now rewrite Hpc, Hpe, Hev.
  - assert (H1 : count is_reconnect (encode_events w a fr) = 0%nat)
      by no_such_event.
    assert (H2 : count is_reconnect
                   (pace_events a fd (t_start (iters w k)) (iters w k)) = 0%nat)
      by no_such_event.
    cbn [app]. rewrite !count_cons, count_app, !count_cons, H1, H2.
    reflexivity.
  - assert (H1 : count is_reconnect_log (encode_events w a fr) = 0%nat)
      by no_such_event.
    assert (H2 : count is_reconnect_log
                   (pace_events a fd (t_start (iters w k)) (iters w k)) = 0%nat)
      by no_such_event.
    cbn [app]. rewrite !count_cons, count_app, !count_cons, H1, H2.
    reflexivity.
  - right; right; right. apply in_or_app; right. apply in_or_app; left.
    simpl; auto.
  - right; right; right. apply in_or_app; right. apply in_or_app; left.
    simpl; auto.
Qed.

End FrameEncoded.

Lemma C2_witness :
  while_loop 1 (world_disconnect false (Raise TimeoutError)) default_args
             (1 # 30) 0 initial_state =
  (extend initial_state
     [EvIsSet false; EvMonotonic 0; EvRead (Ok (true, Some frame_640x480));
      EvImencode frame_640x480 90 (Ok (true, [90; 480; 640; 7]));
      EvPublish "camera.image.raw" [90; 480; 640; 7]
                (Raise ConnectionClosedError);
      EvLog ERROR MsgConnectionClosed;
      EvIsConnected false;
      EvNcConnect [("0.0.0.0"%string, 4222)] 5 (Raise TimeoutError);
      EvLog ERROR (MsgReconnectFailed TimeoutError)],
   Some (Ok tt)).
Proof.
  pose proof (C2_disconnect_single_bounded_reconnect
                (world_disconnect false (Raise TimeoutError)) default_args
                0%nat (1 # 30) 0%nat initial_state frame_640x480
                [90; 480; 640; 7] eq_refl eq_refl eq_refl eq_refl) as H.
  exact (proj1 H).
Defined.

Lemma C9_witness :
  while_loop 1 world_publish_error default_args (1 # 30) 0 initial_state =
  (extend initial_state
     [EvIsSet false; EvMonotonic 0; EvRead (Ok (true, Some frame_640x480));
      EvImencode frame_640x480 90 (Ok (true, [90; 480; 640; 7]));
      EvPublish "camera.image.raw" [90; 480; 640; 7]
                (Raise (OtherError "payload too large"));
      EvLog ERROR (MsgPublishError (OtherError "payload too large"));
      EvMonotonic (1 # 100); EvSleep (7 # 300)],
   None).
Proof.
  exact (C9_other_publish_error_continues world_publish_error default_args
           0%nat (1 # 30) 0%nat initial_state frame_640x480 [90; 480; 640; 7]
           eq_refl eq_refl eq_refl (OtherError "payload too large") eq_refl
           ltac:(discriminate)).
Defined.

Lemma C10_witness :
  while_loop 1 (world_disconnect true (Ok tt)) default_args (1 # 30) 0
             initial_state =
  (extend initial_state
     [EvIsSet false; EvMonotonic 0; EvRead (Ok (true, Some frame_640x480));
      EvImencode frame_640x480 90 (Ok (true, [90; 480; 640; 7]));
      EvPublish "camera.image.raw" [90; 480; 640; 7]
                (Raise ConnectionClosedError);
      EvLog ERROR MsgConnectionClosed;
      EvIsConnected true;
      EvMonotonic (1 # 100); EvSleep (7 # 300)],
   None).
Proof.
  exact (proj1 (C10_client_already_reconnected
                  (world_disconnect true (Ok tt)) default_args
                  0%nat (1 # 30) 0%nat initial_state frame_640x480
                  [90; 480; 640; 7] eq_refl eq_refl eq_refl eq_refl eq_refl)).
Defined.

(** ** Pacing *)

Lemma Qlt_bool_iff x y : Qlt_bool x y = true <-> (x < y)%Q.
Proof.
  unfold Qlt_bool. rewrite negb_true_iff, <- not_true_iff_false, Qle_bool_iff.
  split; [apply Qnot_le_lt | apply Qlt_not_le].
Qed.

Lemma Qlt_bool_false_iff x y : Qlt_bool x y = false <-> (y <= x)%Q.
Proof.
  unfold Qlt_bool. rewrite negb_false_iff. apply Qle_bool_iff.
Qed.

Lemma fsub_correct x y : (fsub x y == x - y)%Q.
Proof. unfold fsub; apply Qred_correct. Qed.

Lemma sleep_duration_correct fd t0 t1 :
  (fsub fd (fsub t1 t0) == fd - (t1 - t0))%Q.
Proof. rewrite fsub_correct, fsub_correct. reflexivity. Qed.

Lemma fdiv_int_correct n fd :
  fdiv_int n = Ok fd -> n <> 0 /\ (fd == 1 / inject_Z n)%Q.
Proof.
  unfold fdiv_int. destruct (n =? 0) eqn:Hn; [discriminate|].
  intros H. split; [now apply Z.eqb_neq|].
  replace fd with (Qred (1 / inject_Z n)) by congruence.
  apply Qred_correct.
Qed.

(** The three ways a pass can pace itself. *)
Lemma pace_events_cases a fd t0 e :
  ((t_end e - t0 < fd)%Q ->
   pace_events a fd t0 e =
   [EvMonotonic (t_end e); EvSleep (fsub fd (fsub (t_end e) t0))]) /\
  ((fd <= t_end e - t0)%Q -> (t_end e - t0 - fd <= 5 # 1000)%Q ->
   pace_events a fd t0 e = [EvMonotonic (t_end e)]) /\
  ((5 # 1000 < t_end e - t0 - fd)%Q ->
   pace_events a fd t0 e =
   [EvMonotonic (t_end e);
    EvLog WARNING (MsgFpsTooHigh (fps a) (fsub (t_end e) t0) fd)]).
Proof.
  pose proof (sleep_duration_correct fd t0 (t_end e)) as Hsd.
  unfold pace_events, pace, bind, call, emit, log, ret, initial_state, extend.
  cbn [trace fst app cap nc].
  repeat split.
  - intros H.
    assert (Hb : Qlt_bool 0 (fsub fd (fsub (t_end e) t0)) = true)
      by (apply Qlt_bool_iff; rewrite Hsd; lra).
    now rewrite Hb.
  - intros H1 H2.
    assert (Hb : Qlt_bool 0 (fsub fd (fsub (t_end e) t0)) = false)
      by (apply Qlt_bool_false_iff; rewrite Hsd; lra).
    assert (Hc : Qlt_bool (fsub fd (fsub (t_end e) t0)) (- (5 # 1000)) = false)
      by (apply Qlt_bool_false_iff; rewrite Hsd; lra).
    now rewrite Hb, Hc.
  - intros H.
    assert (Hb : Qlt_bool 0 (fsub fd (fsub (t_end e) t0)) = false)
      by (apply Qlt_bool_false_iff; rewrite Hsd; lra).
    assert (Hc : Qlt_bool (fsub fd (fsub (t_end e) t0)) (- (5 # 1000)) = true)
      by (apply Qlt_bool_iff; rewrite Hsd; lra).
    now rewrite Hb, Hc.
Qed.

(** A pass that captured a frame, according to how the encoding ended. *)
Lemma loop_body_encode_failed w a fd e fr buf s :
  read_r e = Ok (true, Some fr) ->
  encode_result w a fr = Some (Ok (false, buf)) ->
  loop_body w a fd e s =
  (extend s (EvMonotonic (t_start e) :: EvRead (read_r e) ::
             encode_events w a fr ++ [EvLog WARNING MsgEncodeFailed] ++
             pace_events a fd (t_start e) e),
   Some (Ok Next)).
Proof.
  intros Hr He. unfold loop_body, bind, call, log, emit, ret. rewrite Hr.
  rewrite resize_and_encode_extend, He. cbv beta iota zeta.
  rewrite pace_extend, !extend_extend. same_trace.
Qed.

Lemma loop_body_encode_raised w a fd e fr ex s :
  read_r e = Ok (true, Some fr) ->
  encode_result w a fr = Some (Raise ex) ->
  snd (loop_body w a fd e s) = Some (Raise ex).
Proof.
  intros Hr He. unfold loop_body, bind, call. rewrite Hr.
  now rewrite resize_and_encode_extend, He.
Qed.

Lemma encode_result_terminates w a fr : encode_result w a fr <> None.
Proof. run_pass; discriminate. Qed.

Lemma publish_events_no_sleep a e buf :
  count is_sleep (publish_events a e buf) = 0%nat.
Proof. run_pass; reflexivity. Qed.

(** A pass that captured a frame and was neither left nor cut by an
    exception ends with the pacing; nothing sleeps before it. *)
Lemma pass_reaches_pacing w a fd e fr :
  read_r e = Ok (true, Some fr) ->
  pass_ctrl w a fd e = Some (Ok Next) ->
  exists work,
    count is_sleep work = 0%nat /\
    pass_events w a fd e = work ++ pace_events a fd (t_start e) e.
Proof.
  intros Hr Hc.
  assert (Hnosleep : count is_sleep (encode_events w a fr) = 0%nat)
    by no_such_event.
  destruct (encode_result w a fr) as [[[[|] buf] | ex] | ] eqn:He.
  - pose proof (loop_body_published w a fd e fr buf initial_state Hr He) as H.
    cbv zeta in H. unfold pass_ctrl in Hc. unfold pass_events.
    destruct (publish_ctrl_cases a e buf) as [Hp | Hp]; rewrite Hp in H;
      rewrite H in *; [|discriminate].
    exists (EvMonotonic (t_start e) :: EvRead (read_r e) ::
            encode_events w a fr ++ publish_events a e buf).
    split; [|reflexivity].
    rewrite !count_cons, count_app, Hnosleep, publish_events_no_sleep.
    reflexivity.
  - pose proof (loop_body_encode_failed w a fd e fr buf initial_state Hr He) as H.
    unfold pass_events. rewrite H.
    exists (EvMonotonic (t_start e) :: EvRead (read_r e) ::
            encode_events w a fr ++ [EvLog WARNING MsgEncodeFailed]).
    split.
    + rewrite !count_cons, count_app, Hnosleep. reflexivity.
    + cbn [trace fst extend initial_state app]. now rewrite <- app_assoc.
  - pose proof (loop_body_encode_raised w a fd e fr ex initial_state Hr He) as H.
    unfold pass_ctrl in Hc. congruence.
  - now apply encode_result_terminates in He.
Qed.




(** A pass that ends in a sleep, followed by a loop test that finds the
    event set. *)
Lemma while_loop_sleep_then_exit fuel w a fd k s work t d :
  pass_events w a fd (iters w k) = work ++ [EvMonotonic t; EvSleep d] ->
  pass_ctrl w a fd (iters w k) = Some (Ok Next) ->
  event_set_at w (List.length (trace s)) = false ->
  event_set_at w (List.length (trace s) + (List.length work + 3)) = true ->
  while_loop (S (S fuel)) w a fd k s =
  (extend s (EvIsSet false :: work ++
             [EvMonotonic t; EvSleep d; EvIsSet true]),
   Some (Ok tt)).
Proof.
  intros Hp Hc Hs Hset.
  rewrite while_loop_S, Hs. cbv zeta. rewrite Hc, Hp.
  rewrite while_loop_S.
  replace (List.length
             (trace (extend s (EvIsSet false :: work ++
                               [EvMonotonic t; EvSleep d]))))
    with (List.length (trace s) + (List.length work + 3))%nat.
  - rewrite Hset, extend_extend. same_trace.
  - rewrite trace_extend, length_app. cbn [List.length].
    rewrite length_app. cbn [List.length]. lia.
Qed.

(** C7: when the signal arrives while the loop is in the sleep
    that ends a pass, the sleep is not cut short: the loop asked for the
    whole T - elapsed before the signal and looks at the event again only
    at the loop test that follows the sleep, where it finds it set and
    leaves the loop without a further capture; the run is the one that
    takes place when the signal arrives just after the sleep. *)
Theorem C7_cadence_sleep_runs_in_full (w : world) (a : args) :
  forall fuel fd k s fr n,
    event_set_at w (List.length (trace s)) = false ->
    read_r (iters w k) = Ok (true, Some fr) ->
    pass_ctrl w a fd (iters w k) = Some (Ok Next) ->
    let e := iters w k in
    (t_end e - t_start e < fd)%Q ->
    signal_at w = Some n ->
    n = (List.length (trace s) + List.length (pass_events w a fd e))%nat ->
    exists work d,
      (d == fd - (t_end e - t_start e))%Q /\
      count is_sleep work = 0%nat /\
      let run := EvIsSet false :: work ++
                 [EvMonotonic (t_end e); EvSleep d; EvIsSet true] in
      while_loop (S (S fuel)) w a fd k s = (extend s run, Some (Ok tt)) /\
      nth_error (trace s ++ run) n = Some (EvSleep d) /\
      while_loop (S (S fuel)) (set_signal w (Some (S n))) a fd k s =
      while_loop (S (S fuel)) w a fd k s.
Proof.
  intros fuel fd k s fr n Hs Hr Hc e Hel Hsig Hn. subst e.
  destruct (pass_reaches_pacing w a fd (iters w k) fr Hr Hc) as (work & Hw & Hp).
  destruct (pace_events_cases a fd (t_start (iters w k)) (iters w k))
    as (P1 & _).
  specialize (P1 Hel). rewrite P1 in Hp.
  exists work, (fsub fd (fsub (t_end (iters w k)) (t_start (iters w k)))).
  split; [apply sleep_duration_correct|]. split; [exact Hw|].
  assert (Hlen : n = (List.length (trace s) + (List.length work + 2))%nat).
  { rewrite Hn, Hp, length_app. reflexivity. }
  assert (Hrun : while_loop (S (S fuel)) w a fd k s =
                 (extend s (EvIsSet false :: work ++
                    [EvMonotonic (t_end (iters w k));
                     EvSleep (fsub fd (fsub (t_end (iters w k))
                                            (t_start (iters w k))));
                     EvIsSet true]),
                  Some (Ok tt))).
  { apply while_loop_sleep_then_exit; try assumption.
    unfold event_set_at. rewrite Hsig. apply Nat.leb_le. lia. }
  cbv zeta. split; [exact Hrun|]. split.
  - rewrite nth_error_app2 by lia.
    replace (n - List.length (trace s))%nat with (S (List.length work + 1)) by lia.
    cbn [nth_error]. rewrite nth_error_app2 by lia.
    replace (List.length work + 1 - List.length work)%nat with 1%nat by lia.
    reflexivity.
  - rewrite Hrun. apply while_loop_sleep_then_exit.
    + exact Hp.
    + exact Hc.
    + unfold event_set_at. cbn [signal_at set_signal]. apply Nat.leb_gt. lia.
    + unfold event_set_at. cbn [signal_at set_signal]. apply Nat.leb_le. lia.
Qed.

Lemma C7_witness :
  exists work d,
    (d == 1 - ((2 # 10) - 0))%Q /\
    while_loop 2 (world_paced (Some 8%nat) (2 # 10)) args_1fps 1 0
               initial_state =
    (extend initial_state
       (EvIsSet false :: work ++
        [EvMonotonic (2 # 10); EvSleep d; EvIsSet true]),
     Some (Ok tt)).
Proof.
  destruct (C7_cadence_sleep_runs_in_full
              (world_paced (Some 8%nat) (2 # 10)) args_1fps
              0%nat 1 0%nat initial_state frame_1280x960 8%nat
              eq_refl eq_refl eq_refl eq_refl eq_refl eq_refl)
    as (work & d & Hd & _ & Hrun & _).
  exists work, d. split; [exact Hd | exact Hrun].
Defined.

(** At one frame per second the work of the pass ends after 0.2 s.  The
    signal arrives during operation 23 of the run, which is the sleep: that
    sleep is for the whole 0.8 s that were left, the event is read only
    after it, and the run is the very run in which the signal arrives once
    the sleep is over. *)
Lemma C7_counterexample :
  let run n :=
    async_main 5 (world_paced (Some n) (2 # 10)) args_1fps initial_state in
  let tr := trace (fst (run 23%nat)) in
  nth_error tr 22 = Some (EvMonotonic (2 # 10)) /\
  nth_error tr 23 = Some (EvSleep (4 # 5)) /\
  nth_error tr 24 = Some (EvIsSet true) /\
  run 23%nat = run 24%nat.
Proof. cbv zeta. repeat split; reflexivity. Qed.

(** ** Shutdown *)

Lemma finally_block_extend w s :
  finally_block w s = (extend s (release_events w (cap s) (nc s)), Some (Ok tt)).
Proof.
  destruct s as [tr c n].
  unfold finally_block, release_transport, release_camera, release_events,
    transport_release, camera_release, try_except, bind, call, log, emit, ret,
    get_nc, get_cap, extend.
  cbn [nc cap trace].
  destruct n, c, (final_connected w), (drain_r w), (close_r w),
    (final_opened w);
    cbn [nc cap trace app]; rewrite <- ?app_assoc; reflexivity.
Qed.

Lemma release_events_no_read w c n : count is_read (release_events w c n) = 0%nat.
Proof.
  unfold release_events, transport_release, camera_release.
  destruct c, n, (final_connected w), (drain_r w), (close_r w), (final_opened w);
    reflexivity.
Qed.

Lemma async_main_cases fuel w a s :
  async_main fuel w a s =
  let (s1, r1) := try_body fuel w a s in
  match r1 with
  | None => (s1, None)
  | Some (Ok _) =>
      (extend s1 (release_events w (cap s1) (nc s1)), Some (Ok tt))
  | Some (Raise ex) =>
      (extend s1 (EvLog ERROR (MsgUnexpected ex) ::
                  release_events w (cap s1) (nc s1)),
       Some (Ok tt))
  end.
Proof.
  unfold async_main, try_finally, try_except.
  destruct (try_body fuel w a s) as [s1 [[[] | ex] | ]].
  - now rewrite finally_block_extend.
  - unfold log, emit. rewrite finally_block_extend, extend_extend. reflexivity.
  - reflexivity.
Qed.

Lemma while_loop_extends w a fd fuel :
  forall k s, exists evs, fst (while_loop fuel w a fd k s) = extend s evs.
Proof.
  induction fuel as [|fuel IH]; intros k s.
  - exists []. now rewrite extend_nil.
  - rewrite while_loop_S.
    destruct (event_set_at w (List.length (trace s))); [now eexists|].
    cbv zeta.
    destruct (pass_ctrl w a fd (iters w k)) as [[[|] | ex] | ];
      try (now eexists).
    destruct (IH (S k) (extend s (EvIsSet false :: pass_events w a fd (iters w k))))
      as (evs & Hevs).
    rewrite Hevs, extend_extend. now eexists.
Qed.

Lemma pass_reads_at_most_once w a fd e :
  (count is_read (pass_events w a fd e) <= 1)%nat.
Proof. run_pass; unfold count; simpl; lia. Qed.

(** Once the signal has arrived, at most the capture of the pass in flight
    is still issued. *)
Lemma while_loop_reads w a fd n :
  signal_at w = Some n ->
  forall fuel k s,
    (reads_from n (trace s) <= 1)%nat ->
    (reads_from n (trace (fst (while_loop fuel w a fd k s))) <= 1)%nat.
Proof.
  intros Hsig fuel; induction fuel as [|fuel IH]; intros k s Hs; [exact Hs|].
  rewrite while_loop_S.
  destruct (event_set_at w (List.length (trace s))) eqn:Hset.
  - cbn [fst]. rewrite trace_extend.
    pose proof (reads_from_app n (trace s) [EvIsSet true]) as H.
    cbn in H. lia.
  - assert (Hlt : (List.length (trace s) < n)%nat).
    { unfold event_set_at in Hset. rewrite Hsig in Hset.
      now apply Nat.leb_gt in Hset. }
    assert (H1 : (reads_from n (trace (extend s (EvIsSet false ::
                     pass_events w a fd (iters w k)))) <= 1)%nat).
    { rewrite trace_extend.
      pose proof (reads_from_app n (trace s)
                    (EvIsSet false :: pass_events w a fd (iters w k))) as H.
      rewrite (reads_from_short n (trace s)) in H by lia.
      rewrite count_cons in H. cbn [is_read] in H.
      pose proof (pass_reads_at_most_once w a fd (iters w k)). lia. }
    cbv zeta.
    destruct (pass_ctrl w a fd (iters w k)) as [[[|] | ex] | ]; cbn [fst];
      try exact H1.
    now apply IH.
Qed.

(** Every pass performs at least the loop test, so the signal is seen
    after at most as many passes as operations precede it. *)
Lemma while_loop_terminates w a fd n :
  signal_at w = Some n ->
  forall fuel k s,
    (n <= List.length (trace s) + fuel)%nat ->
    snd (while_loop (S fuel) w a fd k s) <> None.
Proof.
  intros Hsig fuel; induction fuel as [|fuel IH]; intros k s Hn;
    rewrite while_loop_S.
  - assert (Hset : event_set_at w (List.length (trace s)) = true).
    { unfold event_set_at. rewrite Hsig. apply Nat.leb_le. lia. }
    rewrite Hset. discriminate.
  - destruct (event_set_at w (List.length (trace s))); [discriminate|].
    cbv zeta.
    pose proof (pass_ctrl_terminates w a fd (iters w k)) as Hp.
    destruct (pass_ctrl w a fd (iters w k)) as [[[|] | ex] | ];
      try discriminate; [|congruence].
    apply IH. rewrite trace_extend, length_app. cbn [List.length]. lia.
Qed.

(** With the camera open and the server reached, the script gets to the
    computation of the period; nothing was captured before. *)
Lemma try_body_started fuel w a s :
  cap_opened w = true -> connect_r w = Ok tt ->
  exists pre,
    count is_read pre = 0%nat /\
    try_body fuel w a s =
    match fdiv_int (fps a) with
    | Ok fd =>
        while_loop fuel w a fd 0
          (mkState (trace s ++ pre ++
                    [EvLog INFO (MsgStartingLoop (subject a) (fps a))])
                   true true)
    | Raise ex => (mkState (trace s ++ pre) true true, Some (Raise ex))
    end.
Proof.
  intros Ho Hc.
  set (url := nats_server_url a).
  set (aw := int_of_float (actual_width w)).
  set (ah := int_of_float (actual_height w)).
  exists ([EvLog INFO (MsgInitCamera (camera_index a));
           EvVideoCapture (camera_index a);
           EvIsOpened true;
           EvLog INFO (MsgSetProperties (width a) (height a) (fps a));
           EvCapSet CAP_PROP_FRAME_WIDTH (width a);
           EvCapSet CAP_PROP_FRAME_HEIGHT (height a);
           EvCapSet CAP_PROP_FPS (fps a);
           EvCapGet CAP_PROP_FRAME_WIDTH (actual_width w);
           EvCapGet CAP_PROP_FRAME_HEIGHT (actual_height w);
           EvCapGet CAP_PROP_FPS (actual_fps w);
           EvLog INFO (MsgActualProperties aw ah (actual_fps w))] ++
          (if negb (aw =? width a) || negb (ah =? height a)
           then [EvLog WARNING
                   (MsgResolutionNotSupported (width a) (height a) aw ah)]
           else []) ++
          [EvLog INFO (MsgConnecting url);
           EvNatsConnect url 5 (Ok tt);
           EvLog INFO (MsgConnected url)]).
  split.
  - destruct (negb (aw =? width a) || negb (ah =? height a)); reflexivity.
  - destruct s as [tr c n].
    unfold try_body, init_camera, set_properties, connect_nats,
      publishing_loop, try_except, bind, call, log, emit, ret, eval, bind_cap,
      bind_nc, extend.
    cbn [nc cap trace]. rewrite Ho, Hc. cbn [negb nc cap trace].
    fold url aw ah.
    destruct (negb (aw =? width a) || negb (ah =? height a));
      cbn [negb nc cap trace];
      destruct (fdiv_int (fps a)); cbn [negb nc cap trace app];
      rewrite <- ?app_assoc; reflexivity.
Qed.

(** C1: once the camera is open and the server reached, however
    the loop is left (the shutdown event found set, a failed reconnect, an
    exception out of a pass, a zero rate), the run ends with the release
    sequence: the client is asked whether it is connected; if so it is
    drained and then closed, each failure being logged, otherwise it is
    only closed and a failure of that close is passed over in silence; then
    the camera is asked whether it is open and is released if so.  No
    failure of a drain or of a close is propagated or keeps a later step
    from running.  A delivered signal ends the run, and from the moment it
    is delivered at most the capture of the pass in flight is still
    issued. *)
Theorem C1_shutdown_releases_in_order (w : world) (a : args) :
  cap_opened w = true -> connect_r w = Ok tt ->
  (forall n fuel,
      signal_at w = Some n -> (n < fuel)%nat ->
      snd (async_main fuel w a initial_state) = Some (Ok tt)) /\
  (forall fuel s' r,
      async_main fuel w a initial_state = (s', Some r) ->
      r = Ok tt /\
      (exists before, trace s' = before ++ release_sequence w) /\
      count is_read (release_sequence w) = 0%nat /\
      (forall n, signal_at w = Some n -> (reads_from n (trace s') <= 1)%nat)).
Proof.
  intros Ho Hc. split.
  - intros n fuel Hsig Hn.
    rewrite async_main_cases.
    destruct (try_body_started fuel w a initial_state Ho Hc) as (pre & _ & H).
    rewrite H; clear H.
    destruct (fdiv_int (fps a)) as [fd | ex]; [|reflexivity].
    destruct fuel as [|fuel]; [lia|].
    match goal with
    | |- context [while_loop _ _ _ _ _ ?s0] =>
        pose proof (while_loop_terminates w a fd n Hsig fuel 0%nat s0
                      ltac:(lia)) as Hterm;
        destruct (while_loop (S fuel) w a fd 0 s0) as [s1 [[[] | ex] | ]]
    end; cbn [snd] in *; congruence.
  - intros fuel s' r Hrun.
    rewrite async_main_cases in Hrun.
    destruct (try_body_started fuel w a initial_state Ho Hc) as (pre & Hpre & H).
    rewrite H in Hrun; clear H. cbn [trace initial_state app] in Hrun.
    assert (Hreads : forall n s1 tail,
               (reads_from n (trace s1) <= 1)%nat ->
               count is_read tail = 0%nat ->
               (reads_from n (trace (extend s1 tail)) <= 1)%nat).
    { intros n s1 tail H1 H2. rewrite trace_extend.
      pose proof (reads_from_app n (trace s1) tail). lia. }
    assert (Hstart : forall n tail,
               count is_read tail = 0%nat ->
               (reads_from n (pre ++ tail) <= 1)%nat).
    { intros n tail Ht. unfold reads_from.
      pose proof (count_skipn_le is_read n (pre ++ tail)) as Hle.
      rewrite count_app in Hle. lia. }
    destruct (fdiv_int (fps a)) as [fd | ex].
    + set (s0 := mkState
                   (pre ++ [EvLog INFO (MsgStartingLoop (subject a) (fps a))])
                   true true) in *.
      destruct (while_loop_extends w a fd fuel 0%nat s0) as (evs & Hevs).
      assert (Hloop : forall n, signal_at w = Some n ->
                 (reads_from n (trace (fst (while_loop fuel w a fd 0 s0))) <= 1)%nat).
      { intros n Hsig. apply while_loop_reads; [exact Hsig|].
        apply Hstart. reflexivity. }
      destruct (while_loop fuel w a fd 0 s0) as [s1 [[[] | ex] | ]];
        cbn [fst] in *; subst s1; cbn [cap nc extend s0] in Hrun;
        [| |discriminate];
        injection Hrun as <- <-;
        (split; [reflexivity|]); (split; [|split]).
      * eexists. rewrite trace_extend. reflexivity.
      * exact (release_events_no_read w true true).
      * intros n Hsig. apply Hreads; [now apply Hloop|].
        apply release_events_no_read.
      * eexists. rewrite trace_extend.
        change (EvLog ERROR (MsgUnexpected ex) :: release_events w true true)
          with ([EvLog ERROR (MsgUnexpected ex)] ++ release_sequence w).
        rewrite app_assoc. reflexivity.
      * exact (release_events_no_read w true true).
      * intros n Hsig. apply Hreads; [now apply Hloop|].
        rewrite count_cons. cbn [is_read].
        now rewrite release_events_no_read.
    + cbn [cap nc] in Hrun. injection Hrun as <- <-.
      split; [reflexivity|]. split; [|split].
      * eexists. rewrite trace_extend. cbn [trace].
        change (EvLog ERROR (MsgUnexpected ex) :: release_events w true true)
          with ([EvLog ERROR (MsgUnexpected ex)] ++ release_sequence w).
        rewrite app_assoc. reflexivity.
      * exact (release_events_no_read w true true).
      * intros n Hsig. apply Hreads.
        -- cbn [trace]. rewrite <- (app_nil_r pre). now apply Hstart.
        -- rewrite count_cons. cbn [is_read].
           now rewrite release_events_no_read.
Qed.

Lemma C1_witness :
  let run :=
    async_main 24 (world_paced (Some 23%nat) (2 # 10)) args_1fps initial_state in
  snd run = Some (Ok tt) /\
  (exists before,
      trace (fst run) =
      before ++ release_sequence (world_paced (Some 23%nat) (2 # 10))) /\
  (reads_from 23 (trace (fst run)) <= 1)%nat.
Proof.
  cbv zeta.
  destruct (C1_shutdown_releases_in_order
              (world_paced (Some 23%nat) (2 # 10)) args_1fps eq_refl eq_refl)
    as [H1 H2].
  pose proof (H1 23%nat 24%nat eq_refl ltac:(lia)) as Hs.
  destruct (async_main 24 (world_paced (Some 23%nat) (2 # 10)) args_1fps
                       initial_state) as [s' r] eqn:E.
  cbn [snd fst] in *. subst r.
  destruct (H2 24%nat s' (Ok tt) E) as (_ & Hb & _ & Hr).
  split; [reflexivity|]. split; [exact Hb|]. exact (Hr 23%nat eq_refl).
Defined.

(** The reconnect fails and the loop is left.  In the finally block the
    client reports disconnected and its close raises: nothing is logged
    about that failure; the camera reports that it is not open: it is not
    released. *)
Lemma C1_counterexample :
  let tr :=
    trace (fst (async_main 2 world_silent_close default_args initial_state)) in
  skipn 23 tr =
    [EvLog ERROR (MsgReconnectFailed TimeoutError);
     EvLog INFO MsgShuttingDown;
     EvIsConnected false;
     EvClose (Raise (OtherError "close failed"));
     EvIsOpened false;
     EvLog INFO MsgFinished] /\
  count is_release_error_log tr = 0%nat /\
  count is_release tr = 0%nat.
Proof. cbv zeta. repeat split; reflexivity. Qed.

(** ** Exit status *)

Lemma async_main_snd fuel w a s :
  snd (async_main fuel w a s) =
  match snd (try_body fuel w a s) with
  | None => None
  | Some _ => Some (Ok tt)
  end.
Proof.
  rewrite async_main_cases.
  destruct (try_body fuel w a s) as [s1 [[[] | ex] | ]]; reflexivity.
Qed.

Lemma run_server_snd fuel w a s :
  snd (run_server fuel w a s) =
  match snd (try_body fuel w a (extend s main_prelude)) with
  | None => None
  | Some _ => Some (Ok tt)
  end.
Proof.
  unfold run_server, bind, log, emit, try_finally, try_except.
  cbv beta iota. rewrite !extend_extend. cbn [app]. fold main_prelude.
  pose proof (async_main_snd fuel w a (extend s main_prelude)) as H.
  destruct (async_main fuel w a (extend s main_prelude)) as [s1 r1].
  cbn [snd] in H. rewrite H.
  destruct (snd (try_body fuel w a (extend s main_prelude))); [|reflexivity].
  unfold is_set, call, ret. cbv beta iota zeta.
  destruct (event_set_at w (List.length (trace s1))); reflexivity.
Qed.

Lemma main_snd fuel w c a :
  parse_args c = inr a ->
  snd (main fuel w c) =
  match snd (try_body fuel w a (extend initial_state main_prelude)) with
  | None => None
  | Some _ => Some 0
  end.
Proof.
  intros Hp. unfold main. rewrite Hp.
  pose proof (run_server_snd fuel w a initial_state) as H.
  destruct (run_server fuel w a initial_state) as [s r]. cbn [snd] in *.
  rewrite H.
  destruct (snd (try_body fuel w a (extend initial_state main_prelude)));
    reflexivity.
Qed.

Lemma try_body_no_camera fuel w a s :
  cap_opened w = false -> snd (try_body fuel w a s) = Some (Ok tt).
Proof.
  intros Ho. unfold try_body, init_camera, bind, call, log, emit, ret, bind_cap.
  now rewrite Ho.
Qed.

Lemma try_body_no_server fuel w a s ex :
  cap_opened w = true -> connect_r w = Raise ex ->
  snd (try_body fuel w a s) = Some (Ok tt).
Proof.
  intros Ho Hc.
  unfold try_body, init_camera, set_properties, connect_nats, try_except,
    bind, call, log, emit, ret, bind_cap, bind_nc.
  rewrite Ho, Hc. cbn [negb].
  destruct (negb (int_of_float (actual_width w) =? width a)
            || negb (int_of_float (actual_height w) =? height a));
    destruct ex; reflexivity.
Qed.

Lemma try_body_signalled fuel w a s n :
  cap_opened w = true -> connect_r w = Ok tt ->
  signal_at w = Some n -> (n < fuel)%nat ->
  snd (try_body fuel w a s) <> None.
Proof.
  intros Ho Hc Hsig Hn.
  destruct (try_body_started fuel w a s Ho Hc) as (pre & _ & H).
  rewrite H; clear H.
  destruct (fdiv_int (fps a)) as [fd | ex]; [|discriminate].
  destruct fuel as [|fuel]; [lia|].
  apply (while_loop_terminates w a fd n Hsig). lia.
Qed.

(** C6: the exit status does not tell the outcomes apart.  Once
    the command line is accepted, the process ends with status 0 whenever
    it ends: after a shutdown by signal, when the capture device cannot be
    opened, when the server cannot be reached at start-up, and when a
    failed reconnect ends the loop alike. *)
Theorem C6_exit_status_is_always_zero (w : world) (c : cmdline) (a : args) :
  parse_args c = inr a ->
  (forall fuel status, snd (main fuel w c) = Some status -> status = 0) /\
  (forall fuel n,
      cap_opened w = true -> connect_r w = Ok tt ->
      signal_at w = Some n -> (n < fuel)%nat ->
      snd (main fuel w c) = Some 0) /\
  (forall fuel, cap_opened w = false -> snd (main fuel w c) = Some 0) /\
  (forall fuel ex,
      cap_opened w = true -> connect_r w = Raise ex ->
      snd (main fuel w c) = Some 0) /\
  (forall fuel fd k s fr buf ex,
      event_set_at w (List.length (trace s)) = false ->
      read_r (iters w k) = Ok (true, Some fr) ->
      encode_result w a fr = Some (Ok (true, buf)) ->
      publish_r (iters w k) = Raise ConnectionClosedError ->
      connected_r (iters w k) = false ->
      reconnect_r (iters w k) = Raise ex ->
      snd (while_loop (S fuel) w a fd k s) = Some (Ok tt)).
Proof.
  intros Hp. repeat split.
  - intros fuel status. rewrite (main_snd fuel w c a Hp).
    destruct (snd (try_body fuel w a (extend initial_state main_prelude)));
      congruence.
  - intros fuel n Ho Hc Hsig Hn. rewrite (main_snd fuel w c a Hp).
    pose proof (try_body_signalled fuel w a (extend initial_state main_prelude)
                  n Ho Hc Hsig Hn) as H.
    destruct (snd (try_body fuel w a (extend initial_state main_prelude)));
      congruence.
  - intros fuel Ho. rewrite (main_snd fuel w c a Hp).
    now rewrite try_body_no_camera.
  - intros fuel ex Ho Hc. rewrite (main_snd fuel w c a Hp).
    now rewrite (try_body_no_server fuel w a _ ex Ho Hc).
  - intros fuel fd k s fr buf ex Hs Hr He Hpub Hconn Hrec.
    rewrite (while_loop_published fuel w a fd k s fr buf Hs Hr He). cbv zeta.
    destruct (publish_disconnected a (iters w k) buf Hpub) as [_ Hctrl].
    rewrite Hconn, Hrec in Hctrl. now rewrite Hctrl.
Qed.

Lemma C6_witness :
  snd (main 24 (world_paced (Some 23%nat) (2 # 10)) cmd_defaults) = Some 0 /\
  snd (main 1 world_no_camera cmd_defaults) = Some 0 /\
  snd (main 1 world_no_server cmd_defaults) = Some 0.
Proof.
  split; [|split].
  - refine (proj1 (proj2 (C6_exit_status_is_always_zero
                           (world_paced (Some 23%nat) (2 # 10)) cmd_defaults
                           default_args eq_refl))
              24%nat 23%nat eq_refl eq_refl eq_refl _).
    lia.
  - exact (proj1 (proj2 (proj2 (C6_exit_status_is_always_zero world_no_camera
                                  cmd_defaults default_args eq_refl)))
             1%nat eq_refl).
  - exact (proj1 (proj2 (proj2 (proj2 (C6_exit_status_is_always_zero
                                         world_no_server cmd_defaults
                                         default_args eq_refl))))
             1%nat NoServersError eq_refl eq_refl).
Defined.

(** The three outcomes for which a status other than 0 is expected: the
    capture device cannot be opened, no server answers at start-up, the
    reconnect fails and ends the loop.  Each run logs its error and the
    process ends with status 0. *)
Lemma C6_counterexample :
  (In (EvLog ERROR (MsgCannotOpen 0)) (fst (main 1 world_no_camera cmd_defaults)) /\
   snd (main 1 world_no_camera cmd_defaults) = Some 0) /\
  (In (EvLog ERROR (MsgNoServers ("0.0.0.0"%string, 4222)))
      (fst (main 1 world_no_server cmd_defaults)) /\
   snd (main 1 world_no_server cmd_defaults) = Some 0) /\
  (In (EvLog ERROR (MsgReconnectFailed TimeoutError))
      (fst (main 2 (world_disconnect false (Raise TimeoutError)) cmd_defaults)) /\
   snd (main 2 (world_disconnect false (Raise TimeoutError)) cmd_defaults) =
   Some 0).
Proof. vm_compute. intuition. Qed.

(** ** The command line *)

Lemma in_range_iff lo hi x : in_range lo hi x = true <-> lo <= x < hi.
Proof. unfold in_range. rewrite andb_true_iff, Z.leb_le, Z.ltb_lt. tauto. Qed.

(** A quality outside 0..100 is rejected before anything runs. *)
Lemma quality_out_of_range_rejected fuel w c q :
  opt_jpeg_quality c = Some q -> (q < 0 \/ 100 < q) ->
  parse_args c = inl 2 /\ main fuel w c = ([], Some 2).
Proof.
  intros Hq Hr. unfold main, parse_args. rewrite Hq.
  destruct (in_range 0 101 q) eqn:Hin; [|now split].
  apply in_range_iff in Hin. lia.
Qed.

(** The rate is taken as it is given, whatever its value. *)
Lemma parse_args_keeps_fps c f :
  opt_fps c = Some f ->
  forall a, parse_args c = inr a -> fps a = f.
Proof.
  intros Hf a. unfold parse_args. rewrite Hf.
  destruct (opt_jpeg_quality c) as [q|]; [destruct (in_range 0 101 q)|];
    intros H; try discriminate; injection H as <-; reflexivity.
Qed.

(** C8: on [--fps 0] the command line is accepted with a rate of 0; the
    camera is opened and the server connected, then the period 1.0 / 0
    raises ZeroDivisionError, which the outer handler logs before the
    release; the loop is never entered. *)
Theorem C8_zero_rate_is_accepted_and_divides :
  parse_args cmd_fps_zero =
    inr (mkArgs "0.0.0.0" 4222 0 640 480 0 "camera.image.raw" 90) /\
  fdiv_int 0 = Raise ZeroDivisionError /\
  main 1 (healthy_world None (scripted [])) cmd_fps_zero =
    (main_prelude ++
     [EvLog INFO (MsgInitCamera 0); EvVideoCapture 0; EvIsOpened true;
      EvLog INFO (MsgSetProperties 640 480 0);
      EvCapSet CAP_PROP_FRAME_WIDTH 640; EvCapSet CAP_PROP_FRAME_HEIGHT 480;
      EvCapSet CAP_PROP_FPS 0;
      EvCapGet CAP_PROP_FRAME_WIDTH 640; EvCapGet CAP_PROP_FRAME_HEIGHT 480;
      EvCapGet CAP_PROP_FPS 30;
      EvLog INFO (MsgActualProperties 640 480 30);
      EvLog INFO (MsgConnecting ("0.0.0.0"%string, 4222));
      EvNatsConnect ("0.0.0.0"%string, 4222) 5 (Ok tt);
      EvLog INFO (MsgConnected ("0.0.0.0"%string, 4222));
      EvLog ERROR (MsgUnexpected ZeroDivisionError);
      EvLog INFO MsgShuttingDown; EvIsConnected true; EvDrain (Ok tt);
      EvLog INFO MsgDrained; EvClose (Ok tt); EvLog INFO MsgClosed;
      EvIsOpened true; EvRelease; EvLog INFO MsgCameraReleased;
      EvLog INFO MsgFinished;
      EvIsSet false; EvSet; EvLog INFO MsgHasShutDown],
     Some 0).
Proof. repeat split. Qed.

(** * Further properties of the publisher loop *)

(** ** A frame that cannot be encoded *)

(** When [cv2.imencode] reports failure, the pass logs a warning, hands
    nothing to [nc.publish], is paced like any other pass, and the next
    pass starts. *)
Theorem encode_failure_skips_publish (w : world) (a : args) :
  forall fuel fd k s fr buf,
    event_set_at w (List.length (trace s)) = false ->
    read_r (iters w k) = Ok (true, Some fr) ->
    encode_result w a fr = Some (Ok (false, buf)) ->
    let e := iters w k in
    let pass :=
      EvIsSet false :: EvMonotonic (t_start e) :: EvRead (read_r e) ::
      encode_events w a fr ++
      EvLog WARNING MsgEncodeFailed :: pace_events a fd (t_start e) e in
    while_loop (S fuel) w a fd k s =
      while_loop fuel w a fd (S k) (extend s pass) /\
    count is_publish pass = 0%nat.
Proof.
  intros fuel fd k s fr buf Hs Hr He e pass. subst e pass.
  pose proof (loop_body_encode_failed w a fd (iters w k) fr buf initial_state
                Hr He) as Hb.
  split.
  - rewrite while_loop_S, Hs. cbv zeta. unfold pass_ctrl, pass_events.
    rewrite Hb. reflexivity.
  - assert (H1 : count is_publish (encode_events w a fr) = 0%nat)
      by no_such_event.
    assert (H2 : count is_publish
                   (pace_events a fd (t_start (iters w k)) (iters w k)) = 0%nat)
      by no_such_event.
    rewrite !count_cons, count_app, count_cons, H1, H2. reflexivity.
Qed.

Lemma encode_failure_skips_publish_witness :
  while_loop 1 world_encoder_fails default_args (1 # 30) 0 initial_state =
  (extend initial_state
     [EvIsSet false; EvMonotonic 0; EvRead (Ok (true, Some frame_1280x960));
      EvResize frame_1280x960 640 480 (Ok (mkFrame 480 640 [1; 2; 3]));
      EvImencode (mkFrame 480 640 [1; 2; 3]) 90 (Ok (false, []));
      EvLog WARNING MsgEncodeFailed;
      EvMonotonic (1 # 100); EvSleep (7 # 300)],
   None).
Proof.
  exact (proj1 (encode_failure_skips_publish world_encoder_fails default_args
                  0%nat (1 # 30) 0%nat initial_state frame_1280x960 []
                  eq_refl eq_refl eq_refl)).
Defined.

(** ** An exception out of a pass *)

Lemma loop_body_read_raised w a fd e ex s :
  read_r e = Raise ex ->
  loop_body w a fd e s =
  (extend s [EvMonotonic (t_start e); EvRead (Raise ex)], Some (Raise ex)).
Proof.
  intros Hr. unfold loop_body, bind, call. rewrite Hr.
  now rewrite extend_extend.
Qed.

Lemma pass_raises_iff w a fd e ex :
  pass_ctrl w a fd e = Some (Raise ex) <->
  read_r e = Raise ex \/
  exists fr, read_r e = Ok (true, Some fr) /\
             encode_result w a fr = Some (Raise ex).
Proof.
  unfold pass_ctrl. split.
  - intros H. destruct (read_r e) as [rf | ex'] eqn:Hr.
    + destruct (capture_failed rf) eqn:Hf.
      * rewrite (loop_body_capture_failed w a fd e rf _ Hr Hf) in H.
        discriminate.
      * destruct rf as [[|] [fr|]]; try discriminate. right. exists fr.
        split; [reflexivity|].
        destruct (encode_result w a fr) as [[[[|] buf] | ex'] | ] eqn:He.
        -- rewrite (loop_body_published w a fd e fr buf _ Hr He) in H.
           cbv zeta in H.
           destruct (publish_ctrl_cases a e buf) as [Hc | Hc];
             rewrite Hc in H; discriminate.
        -- rewrite (loop_body_encode_failed w a fd e fr buf _ Hr He) in H.
           discriminate.
        -- rewrite (loop_body_encode_raised w a fd e fr ex' _ Hr He) in H.
           congruence.
        -- now apply encode_result_terminates in He.
    + rewrite (loop_body_read_raised w a fd e ex' _ Hr) in H.
      left. cbn [snd] in H. congruence.
  - intros [Hr | (fr & Hr & He)].
    + now rewrite (loop_body_read_raised w a fd e ex _ Hr).
    + now apply loop_body_encode_raised with (fr := fr).
Qed.

Lemma raising_pass_is_quiet w a fd e ex :
  pass_ctrl w a fd e = Some (Raise ex) ->
  count is_publish (pass_events w a fd e) = 0%nat /\
  count is_sleep (pass_events w a fd e) = 0%nat /\
  count is_reconnect (pass_events w a fd e) = 0%nat.
Proof. run_pass; intros H; try discriminate; repeat split. Qed.

(** When [cap.read], [cv2.resize] or [cv2.imencode] raises, and only then,
    a pass ends with an exception; the loop is left at once, with nothing
    published, no reconnect and no sleep in that pass; [async_main] logs
    the exception as unexpected, runs the release and returns normally. *)
Theorem exception_in_pass_ends_run (w : world) (a : args) :
  (forall fd e ex,
      pass_ctrl w a fd e = Some (Raise ex) <->
      read_r e = Raise ex \/
      exists fr, read_r e = Ok (true, Some fr) /\
                 encode_result w a fr = Some (Raise ex)) /\
  (forall fuel fd k s ex,
      event_set_at w (List.length (trace s)) = false ->
      pass_ctrl w a fd (iters w k) = Some (Raise ex) ->
      let pass := pass_events w a fd (iters w k) in
      while_loop (S fuel) w a fd k s =
        (extend s (EvIsSet false :: pass), Some (Raise ex)) /\
      count is_publish pass = 0%nat /\
      count is_sleep pass = 0%nat /\
      count is_reconnect pass = 0%nat) /\
  (forall fuel s s1 ex,
      try_body fuel w a s = (s1, Some (Raise ex)) ->
      async_main fuel w a s =
      (extend s1 (EvLog ERROR (MsgUnexpected ex) ::
                  release_events w (cap s1) (nc s1)),
       Some (Ok tt))).
Proof.
  split; [|split].
  - intros fd e ex. apply pass_raises_iff.
  - intros fuel fd k s ex Hs Hc pass. split.
    + rewrite while_loop_S, Hs. cbv zeta. now rewrite Hc.
    + now apply raising_pass_is_quiet with (ex := ex).
  - intros fuel s s1 ex H. rewrite async_main_cases, H. reflexivity.
Qed.

Lemma exception_in_pass_ends_run_witness :
  while_loop 1 world_read_raises default_args (1 # 30) 0 initial_state =
  (extend initial_state
     [EvIsSet false; EvMonotonic 0; EvRead (Raise (OtherError "device lost"))],
   Some (Raise (OtherError "device lost"))) /\
  last_event
    (trace (fst (async_main 1 world_read_raises default_args initial_state))) =
  Some (EvLog INFO MsgFinished).
Proof.
  destruct (exception_in_pass_ends_run world_read_raises default_args)
    as (_ & H2 & H3).
  split.
  - exact (proj1 (H2 0%nat (1 # 30) 0%nat initial_state
                     (OtherError "device lost") eq_refl eq_refl)).
  - rewrite (H3 1%nat initial_state
               (fst (try_body 1 world_read_raises default_args initial_state))
               (OtherError "device lost") eq_refl).
    reflexivity.
Defined.

(** ** The ways out of the loop *)

Lemma last_event_snoc l ev : last_event (l ++ [ev]) = Some ev.
Proof.
  unfold last_event. rewrite map_app. cbn [map]. apply last_last.
Qed.

Lemma last_event_app l1 l2 :
  l2 <> [] -> last_event (l1 ++ l2) = last_event l2.
Proof.
  intros H. destruct (exists_last H) as (l & ev & ->).
  now rewrite app_assoc, !last_event_snoc.
Qed.

Lemma last_event_cons ev l : l <> [] -> last_event (ev :: l) = last_event l.
Proof. intros H. now apply (last_event_app [ev] l). Qed.

(** A pass leaves the loop by [break] only after a failed reconnect, which
    is then the last thing it logs. *)
Lemma pass_break_is_failed_reconnect w a fd e :
  pass_ctrl w a fd e = Some (Ok Break) ->
  publish_r e = Raise ConnectionClosedError /\
  connected_r e = false /\
  exists ex,
    reconnect_r e = Raise ex /\
    last_event (pass_events w a fd e) =
    Some (EvLog ERROR (MsgReconnectFailed ex)).
Proof.
  run_pass; intros H; try discriminate.
  all: match goal with
       | Hn : negb (connected_r _) = true |- _ => apply negb_true_iff in Hn
       end.
  all: split; [reflexivity|]; split; [assumption|].
  all: eexists; split; reflexivity.
Qed.

Lemma pass_events_nonempty w a fd e : pass_events w a fd e <> [].
Proof. run_pass; discriminate. Qed.

(** The loop ends in three ways only: the loop test finds the shutdown
    event set; a reconnect fails after a lost connection; a pass raises.
    In the first two the loop ends normally, in the third with the
    exception of the pass. *)
Theorem loop_is_left_in_three_ways (w : world) (a : args) (fd : Q) :
  forall fuel k s s' r,
    while_loop fuel w a fd k s = (s', Some r) ->
    (r = Ok tt /\ last_event (trace s') = Some (EvIsSet true)) \/
    (r = Ok tt /\
     exists j ex,
       (k <= j)%nat /\
       publish_r (iters w j) = Raise ConnectionClosedError /\
       connected_r (iters w j) = false /\
       reconnect_r (iters w j) = Raise ex /\
       last_event (trace s') = Some (EvLog ERROR (MsgReconnectFailed ex))) \/
    (exists j ex,
       (k <= j)%nat /\ r = Raise ex /\
       pass_ctrl w a fd (iters w j) = Some (Raise ex)).
Proof.
  intros fuel; induction fuel as [|fuel IH]; intros k s s' r H;
    [discriminate|].
  rewrite while_loop_S in H.
  destruct (event_set_at w (List.length (trace s))).
  - injection H as <- <-. left. split; [reflexivity|].
    rewrite trace_extend. apply last_event_snoc.
  - cbv zeta in H.
    destruct (pass_ctrl w a fd (iters w k)) as [[[|] | ex] | ] eqn:Hc.
    + destruct (IH _ _ _ _ H) as [Hset | [(Hr & j & ex & Hj & Hrest) |
                                           (j & ex & Hj & Hrest)]].
      * now left.
      * right; left. split; [exact Hr|]. exists j, ex. split; [lia|exact Hrest].
      * right; right. exists j, ex. split; [lia|exact Hrest].
    + injection H as <- <-. right; left. split; [reflexivity|].
      destruct (pass_break_is_failed_reconnect w a fd (iters w k) Hc)
        as (Hp & Hn & ex & Hrec & Hlast).
      exists k, ex. repeat split; try assumption; try lia.
      rewrite trace_extend, last_event_app by discriminate.
      rewrite last_event_cons by apply pass_events_nonempty.
      exact Hlast.
    + injection H as <- <-. right; right. exists k, ex.
      repeat split; [lia | exact Hc].
    + discriminate.
Qed.

Lemma failed_reconnect_run :
  while_loop 1 (world_disconnect false (Raise TimeoutError)) default_args
             (1 # 30) 0 initial_state =
  (fst (while_loop 1 (world_disconnect false (Raise TimeoutError))
                   default_args (1 # 30) 0 initial_state),
   Some (Ok tt)).
Proof. reflexivity. Defined.

Lemma loop_is_left_in_three_ways_witness :
  exists j ex,
    (0 <= j)%nat /\
    publish_r (iters (world_disconnect false (Raise TimeoutError)) j) =
      Raise ConnectionClosedError /\
    reconnect_r (iters (world_disconnect false (Raise TimeoutError)) j) =
      Raise ex.
Proof.
  destruct (loop_is_left_in_three_ways
              (world_disconnect false (Raise TimeoutError)) default_args
              (1 # 30) 1%nat 0%nat initial_state _ _ failed_reconnect_run)
    as [[_ H] | [(_ & j & ex & Hj & Hp & _ & Hr & _) | (j & ex & _ & H & _)]].
  - discriminate H.
  - exists j, ex. repeat split; assumption.
  - discriminate H.
Defined.

(** ** Frames are published in the order of capture *)

Lemma publish_attempts_app l1 l2 :
  publish_attempts (l1 ++ l2) = publish_attempts l1 ++ publish_attempts l2.
Proof. unfold publish_attempts. apply flat_map_app. Qed.

(** A pass hands its payload to [nc.publish] once, and nothing else. *)
Lemma pass_publish_attempts w a fd e :
  publish_attempts (pass_events w a fd e) = option_list (pass_payload w a e).
Proof. unfold pass_payload. run_pass; reflexivity. Qed.

(** After any number of passes, the payloads handed to [nc.publish] are
    those of the passes run so far that captured and encoded a frame, one
    call per pass and in the order of capture: no frame is published twice,
    out of order, or kept for a later pass.  As long as the loop is running,
    all the passes that the fuel allows have been run. *)
Theorem payloads_published_in_capture_order (w : world) (a : args) (fd : Q) :
  forall fuel k s,
  exists m,
    (m <= fuel)%nat /\
    (snd (while_loop fuel w a fd k s) = None -> m = fuel) /\
    publish_attempts (trace (fst (while_loop fuel w a fd k s))) =
    publish_attempts (trace s) ++
    flat_map (fun j => option_list (pass_payload w a (iters w j))) (seq k m).
Proof.
  intros fuel; induction fuel as [|fuel IH]; intros k s.
  - exists 0%nat. cbn. now rewrite app_nil_r.
  - rewrite while_loop_S.
    destruct (event_set_at w (List.length (trace s))).
    + exists 0%nat. cbn [fst snd seq flat_map]. split; [lia|].
      split; [discriminate|].
      rewrite trace_extend, publish_attempts_app. reflexivity.
    + cbv zeta.
      assert (Hpass :
                publish_attempts
                  (trace (extend s (EvIsSet false ::
                                    pass_events w a fd (iters w k)))) =
                publish_attempts (trace s) ++
                option_list (pass_payload w a (iters w k))).
      { rewrite trace_extend, publish_attempts_app.
        change (EvIsSet false :: ?l) with ([EvIsSet false] ++ l).
        rewrite publish_attempts_app, pass_publish_attempts. reflexivity. }
      pose proof (pass_ctrl_terminates w a fd (iters w k)) as Hterm.
      destruct (pass_ctrl w a fd (iters w k)) as [[[|] | ex] | ];
        [| | |congruence].
      * destruct (IH (S k)
                     (extend s (EvIsSet false ::
                                pass_events w a fd (iters w k))))
          as (m & Hm & Hnone & Heq).
        exists (S m). split; [lia|]. split.
        -- intros H. now rewrite (Hnone H).
        -- rewrite Heq, Hpass. cbn [seq flat_map]. now rewrite app_assoc.
      * exists 1%nat. cbn [fst snd seq flat_map]. split; [lia|].
        split; [discriminate|]. now rewrite Hpass, app_nil_r.
      * exists 1%nat. cbn [fst snd seq flat_map]. split; [lia|].
        split; [discriminate|]. now rewrite Hpass, app_nil_r.
Qed.

(** ** The configuration is used as it was given *)

Lemma pass_uses_configuration w a fd e :
  Forall (uses_configuration a) (pass_events w a fd e).
Proof. run_pass; repeat constructor. Qed.

(** Every call of a run carries the values of the command line: the camera
    index, the URL and the timeout of both connect calls, the target size of
    every resize, the quality of every encoding and the subject of every
    publish. *)
Theorem every_call_uses_the_configuration (fuel : nat) (w : world) (a : args) :
  Forall (uses_configuration a)
         (trace (fst (async_main fuel w a initial_state))).
Proof.
  assert (H : preserves (uses_configuration a) (async_main fuel w a)).
  { unfold async_main, try_body, init_camera, set_properties, connect_nats,
      publishing_loop, finally_block, release_transport, release_camera.
    repeat preserves_step; try exact I; try reflexivity;
      try (split; reflexivity).
    all: try (apply preserves_while_loop;
              [intros; exact I | intros; apply pass_uses_configuration]). }
  exact (H initial_state (Forall_nil _)).
Qed.

(** ** Sleeps *)

Lemma pass_sleeps_positive w a fd e :
  Forall sleeps_positive (pass_events w a fd e).
Proof.
  run_pass; repeat constructor; simpl; try reflexivity.
  all: match goal with
       | H : Qlt_bool 0 _ = true |- _ => now apply Qlt_bool_iff in H
       end.
Qed.

Lemma pass_sleeps_at_most_once w a fd e :
  (count is_sleep (pass_events w a fd e) <= 1)%nat.
Proof. run_pass; unfold count; simpl; lia. Qed.

(** [asyncio.sleep] is never asked for a zero or negative time, whatever the
    clock readings and the rate: a pass sleeps at most once, for the fixed
    backoff or for a positive remainder of the period. *)
Theorem sleeps_are_positive_and_single (fuel : nat) (w : world) (a : args) :
  Forall sleeps_positive (trace (fst (async_main fuel w a initial_state))) /\
  (forall fd e, (count is_sleep (pass_events w a fd e) <= 1)%nat).
Proof.
  split; [|intros; apply pass_sleeps_at_most_once].
  assert (H : preserves sleeps_positive (async_main fuel w a)).
  { unfold async_main, try_body, init_camera, set_properties, connect_nats,
      publishing_loop, finally_block, release_transport, release_camera.
    repeat preserves_step; try exact I.
    all: try (apply preserves_while_loop;
              [intros; exact I | intros; apply pass_sleeps_positive]). }
  exact (H initial_state (Forall_nil _)).
Qed.

(** ** The run as start-up, loop and release *)

(** The camera cannot be opened: nothing else is tried. *)
Lemma try_body_camera_closed fuel w a s :
  cap_opened w = false ->
  try_body fuel w a s =
  (mkState (trace s ++
            [EvLog INFO (MsgInitCamera (camera_index a));
             EvVideoCapture (camera_index a);
             EvIsOpened false;
             EvLog ERROR (MsgCannotOpen (camera_index a))])
           true (nc s),
   Some (Ok tt)).
Proof.
  intros Ho. destruct s as [tr c n].
  unfold try_body, init_camera, bind, call, log, emit, ret, bind_cap, extend.
  cbn [nc cap trace]. rewrite Ho. cbn [negb nc cap trace].
  rewrite <- !app_assoc. reflexivity.
Qed.

(** The first connect raises: the handler of its class logs it and
    [async_main] returns; [nc] was never bound. *)
Lemma try_body_connect_raised fuel w a s ex :
  cap_opened w = true -> connect_r w = Raise ex ->
  try_body fuel w a s =
  (mkState (trace s ++ camera_setup w a ++
            [EvLog INFO (MsgConnecting (nats_server_url a));
             EvNatsConnect (nats_server_url a) 5 (Raise ex);
             connect_error_log a ex])
           true (nc s),
   Some (Ok tt)).
Proof.
  intros Ho Hc. destruct s as [tr c n].
  unfold try_body, init_camera, set_properties, connect_nats, try_except,
    bind, call, log, emit, ret, bind_cap, bind_nc, extend, camera_setup.
  cbn [nc cap trace]. rewrite Ho, Hc. cbn [negb nc cap trace].
  destruct (negb (int_of_float (actual_width w) =? width a)
            || negb (int_of_float (actual_height w) =? height a));
    destruct ex; cbn [negb nc cap trace app connect_error_log];
    rewrite <- ?app_assoc; reflexivity.
Qed.

(** The camera opens and the server answers: the period is computed and
    the loop entered, or the division raises. *)
Lemma try_body_connected fuel w a s :
  cap_opened w = true -> connect_r w = Ok tt ->
  let pre := camera_setup w a ++
             [EvLog INFO (MsgConnecting (nats_server_url a));
              EvNatsConnect (nats_server_url a) 5 (Ok tt);
              EvLog INFO (MsgConnected (nats_server_url a))] in
  try_body fuel w a s =
  match fdiv_int (fps a) with
  | Ok fd =>
      while_loop fuel w a fd 0
        (mkState (trace s ++ pre ++
                  [EvLog INFO (MsgStartingLoop (subject a) (fps a))])
                 true true)
  | Raise ex => (mkState (trace s ++ pre) true true, Some (Raise ex))
  end.
Proof.
  intros Ho Hc pre. subst pre. destruct s as [tr c n].
  unfold try_body, init_camera, set_properties, connect_nats,
    publishing_loop, try_except, bind, call, log, emit, ret, eval, bind_cap,
    bind_nc, extend, camera_setup.
  cbn [nc cap trace]. rewrite Ho, Hc. cbn [negb nc cap trace].
  destruct (negb (int_of_float (actual_width w) =? width a)
            || negb (int_of_float (actual_height w) =? height a));
    cbn [negb nc cap trace];
    destruct (fdiv_int (fps a)); cbn [negb nc cap trace app];
    rewrite <- ?app_assoc; reflexivity.
Qed.

Lemma camera_setup_kind w a :
  Forall (fun ev => startup_event ev = true) (camera_setup w a).
Proof.
  unfold camera_setup.
  destruct (negb (int_of_float (actual_width w) =? width a)
            || negb (int_of_float (actual_height w) =? height a));
    repeat constructor.
Qed.

Lemma camera_setup_no_connect w a :
  count is_first_connect (camera_setup w a) = 0%nat.
Proof.
  unfold camera_setup.
  destruct (negb (int_of_float (actual_width w) =? width a)
            || negb (int_of_float (actual_height w) =? height a));
    reflexivity.
Qed.

Lemma pass_events_loop_kind w a fd e :
  Forall (fun ev => loop_event ev = true) (pass_events w a fd e).
Proof. run_pass; repeat constructor. Qed.

(** What the loop adds to the trace. *)
Lemma while_loop_events (P : event -> Prop) w a fd :
  (forall b, P (EvIsSet b)) ->
  (forall k, Forall P (pass_events w a fd (iters w k))) ->
  forall fuel k s,
  exists evs,
    fst (while_loop fuel w a fd k s) = extend s evs /\ Forall P evs.
Proof.
  intros Hb Hp fuel; induction fuel as [|fuel IH]; intros k s.
  - exists []. now rewrite extend_nil.
  - rewrite while_loop_S.
    destruct (event_set_at w (List.length (trace s)));
      [exists [EvIsSet true]; split; [reflexivity | repeat constructor; auto]|].
    cbv zeta.
    assert (Hpass : Forall P (EvIsSet false :: pass_events w a fd (iters w k)))
      by (constructor; auto).
    destruct (pass_ctrl w a fd (iters w k)) as [[[|] | ex] | ];
      try (eexists; split; [reflexivity | exact Hpass]).
    destruct (IH (S k) (extend s (EvIsSet false ::
                                  pass_events w a fd (iters w k))))
      as (evs & Hevs & HP).
    rewrite Hevs, extend_extend. eexists. split; [reflexivity|].
    apply Forall_app. now split.
Qed.

Lemma try_body_fst_cap fuel w a s : cap (fst (try_body fuel w a s)) = true.
Proof.
  destruct (cap_opened w) eqn:Ho.
  - destruct (connect_r w) as [[] | ex] eqn:Hc.
    + rewrite (try_body_connected fuel w a s Ho Hc). cbv zeta.
      destruct (fdiv_int (fps a)) as [fd | ex]; [|reflexivity].
      match goal with
      | |- context [while_loop _ _ _ _ _ ?s0] =>
          destruct (while_loop_extends w a fd fuel 0%nat s0) as (evs & ->)
      end.
      reflexivity.
    + now rewrite (try_body_connect_raised fuel w a s ex Ho Hc).
  - now rewrite (try_body_camera_closed fuel w a s Ho).
Qed.

(** Every run is a start-up, then operations of the loop, then the
    release (absent while the loop is running). *)
Lemma async_main_structure fuel w a :
  exists pre loop post (nc_bound : bool),
    trace (fst (async_main fuel w a initial_state)) = pre ++ loop ++ post /\
    Forall (fun ev => startup_event ev = true) pre /\
    count is_first_connect pre = (if cap_opened w then 1 else 0)%nat /\
    Forall (fun ev => loop_event ev = true) loop /\
    (loop <> [] -> nc_bound = true) /\
    (nc_bound = true <-> cap_opened w = true /\ connect_r w = Ok tt) /\
    (post = [] \/
     post = release_events w true nc_bound \/
     exists ex, post = EvLog ERROR (MsgUnexpected ex) ::
                       release_events w true nc_bound).
Proof.
  rewrite async_main_cases.
  destruct (cap_opened w) eqn:Ho; [destruct (connect_r w) as [[] | ex] eqn:Hc|].
  - rewrite (try_body_connected fuel w a initial_state Ho Hc). cbv zeta.
    cbn [trace initial_state app].
    set (pre := camera_setup w a ++
                [EvLog INFO (MsgConnecting (nats_server_url a));
                 EvNatsConnect (nats_server_url a) 5 (Ok tt);
                 EvLog INFO (MsgConnected (nats_server_url a))]).
    assert (Hkind : Forall (fun ev => startup_event ev = true) pre).
    { apply Forall_app; split; [apply camera_setup_kind | repeat constructor]. }
    assert (Hcount : count is_first_connect pre = 1%nat).
    { unfold pre. rewrite count_app, camera_setup_no_connect. reflexivity. }
    destruct (fdiv_int (fps a)) as [fd | ex].
    + set (start := EvLog INFO (MsgStartingLoop (subject a) (fps a))).
      destruct (while_loop_events (fun ev => loop_event ev = true) w a fd
                  (fun _ => eq_refl)
                  (fun k => pass_events_loop_kind w a fd (iters w k))
                  fuel 0%nat (mkState (pre ++ [start]) true true))
        as (evs & Hevs & Hloop).
      assert (Hpre : Forall (fun ev => startup_event ev = true)
                       (pre ++ [start]))
        by (apply Forall_app; split; [exact Hkind | repeat constructor]).
      assert (Hcnt : count is_first_connect (pre ++ [start]) = 1%nat)
        by (rewrite count_app, Hcount; reflexivity).
      destruct (while_loop fuel w a fd 0 (mkState (pre ++ [start]) true true))
        as [s1 [[[] | ex] | ]]; cbn [fst] in Hevs; subst s1;
        cbn [fst trace extend cap nc].
      * exists (pre ++ [start]), evs, (release_events w true true), true.
        split; [now rewrite <- !app_assoc|].
        split; [exact Hpre|]. split; [exact Hcnt|]. split; [exact Hloop|].
        split; [reflexivity|]. split; [tauto|]. now (right; left).
      * exists (pre ++ [start]), evs,
          (EvLog ERROR (MsgUnexpected ex) :: release_events w true true), true.
        split; [now rewrite <- !app_assoc|].
        split; [exact Hpre|]. split; [exact Hcnt|]. split; [exact Hloop|].
        split; [reflexivity|]. split; [tauto|].
        right; right. now exists ex.
      * exists (pre ++ [start]), evs, [], true.
        split; [now rewrite app_nil_r|].
        split; [exact Hpre|]. split; [exact Hcnt|]. split; [exact Hloop|].
        split; [reflexivity|]. split; [tauto|]. now left.
    + cbn [fst trace extend cap nc].
      exists pre, []; eexists; exists true.
      split; [reflexivity|].
      split; [exact Hkind|]. split; [exact Hcount|]. split; [constructor|].
      split; [reflexivity|]. split; [tauto|].
      right; right. eexists; reflexivity.
  - rewrite (try_body_connect_raised fuel w a initial_state ex Ho Hc).
    cbn [fst trace extend cap nc initial_state app].
    eexists; exists []; eexists; exists false.
    split; [reflexivity|]. split.
    { apply Forall_app; split; [apply camera_setup_kind|].
      destruct ex; repeat constructor. }
    split.
    { rewrite count_app, camera_setup_no_connect. now destruct ex. }
    split; [constructor|]. split; [congruence|].
    split; [split; [discriminate | intros [_ H]; discriminate]|].
    right; left; reflexivity.
  - rewrite (try_body_camera_closed fuel w a initial_state Ho).
    cbn [fst trace extend cap nc initial_state app].
    exists [EvLog INFO (MsgInitCamera (camera_index a));
            EvVideoCapture (camera_index a);
            EvIsOpened false;
            EvLog ERROR (MsgCannotOpen (camera_index a))],
      [], (release_events w true false), false.
    split; [reflexivity|]. split; [repeat constructor|].
    split; [reflexivity|].
    split; [constructor|]. split; [congruence|].
    split; [split; [discriminate | intros [H _]; discriminate]|].
    right; left; reflexivity.
Qed.

Ltac kinds_disjoint :=
  let ev := fresh "ev" in
  intros ev; destruct ev; simpl; congruence.

Lemma release_events_kind w c n :
  Forall (fun ev => release_event ev = true) (release_events w c n).
Proof.
  unfold release_events, transport_release, camera_release.
  destruct c, n, (final_connected w), (drain_r w), (close_r w),
    (final_opened w); repeat constructor.
Qed.

Lemma release_events_counts w c n :
  count is_drain (release_events w c n) =
    (if n && final_connected w then 1 else 0)%nat /\
  count is_close (release_events w c n) = (if n then 1 else 0)%nat /\
  count is_release (release_events w c n) =
    (if c && final_opened w then 1 else 0)%nat.
Proof.
  unfold release_events, transport_release, camera_release.
  destruct c, n, (final_connected w), (drain_r w), (close_r w),
    (final_opened w); repeat split.
Qed.

(** ** Resources are released at most once *)

(** In every run, however the start-up and the loop went: the client is
    drained at most once, closed at most once, and never drained without
    being closed; the camera is released at most once; the client is not
    drained when it reports disconnected, the camera not released when it
    reports closed; and when the camera could not be opened or the first
    connect failed, the client, which was never obtained, is neither
    drained nor closed. *)
Theorem resources_are_released_at_most_once (fuel : nat) (w : world)
  (a : args) :
  let tr := trace (fst (async_main fuel w a initial_state)) in
  (count is_drain tr <= 1)%nat /\
  (count is_close tr <= 1)%nat /\
  (count is_release tr <= 1)%nat /\
  (count is_drain tr <= count is_close tr)%nat /\
  (final_connected w = false -> count is_drain tr = 0%nat) /\
  (final_opened w = false -> count is_release tr = 0%nat) /\
  (cap_opened w = false \/ (exists ex, connect_r w = Raise ex) ->
   count is_drain tr = 0%nat /\ count is_close tr = 0%nat).
Proof.
  cbv zeta.
  destruct (async_main_structure fuel w a)
    as (pre & loop & post & nc_bound & -> & Hpre & _ & Hloop & _ & Hnc & Hpost).
  assert (Hq : forall q,
             (forall ev, startup_event ev = true -> q ev = false) ->
             (forall ev, loop_event ev = true -> q ev = false) ->
             count q (pre ++ loop ++ post) = count q post).
  { intros q H1 H2. rewrite !count_app.
    rewrite (count_disjoint q _ pre Hpre H1).
    rewrite (count_disjoint q _ loop Hloop H2). reflexivity. }
  rewrite (Hq is_drain) by kinds_disjoint.
  rewrite (Hq is_close) by kinds_disjoint.
  rewrite (Hq is_release) by kinds_disjoint.
  destruct (release_events_counts w true nc_bound) as (Cd & Cc & Cr).
  destruct Hpost as [-> | [-> | (ex & ->)]];
    rewrite ?count_cons; cbn [is_drain is_close is_release];
    rewrite ?Cd, ?Cc, ?Cr; cbn [count filter List.length andb Nat.add].
  - repeat split; auto; lia.
  - destruct nc_bound, (final_connected w), (final_opened w);
      cbn [andb]; repeat split; try lia; try discriminate;
      destruct Hnc as [Hnc _]; destruct (Hnc eq_refl);
      match goal with
      | H : _ \/ _ |- _ => destruct H as [H | (? & H)]; congruence
      end.
  - destruct nc_bound, (final_connected w), (final_opened w);
      cbn [andb]; repeat split; try lia; try discriminate;
      destruct Hnc as [Hnc _]; destruct (Hnc eq_refl);
      match goal with
      | H : _ \/ _ |- _ => destruct H as [H | (? & H)]; congruence
      end.
Qed.

(** ** Nothing is retried at start-up *)

(** The first connect is tried once when the camera opened and never
    otherwise; when the camera cannot be opened or the first connect
    raises, the run captures, publishes and sleeps nothing, and
    [async_main] returns normally. *)
Theorem startup_failure_stops_before_the_loop (fuel : nat) (w : world)
  (a : args) :
  let tr := trace (fst (async_main fuel w a initial_state)) in
  count is_first_connect tr = (if cap_opened w then 1 else 0)%nat /\
  (cap_opened w = false \/ (exists ex, connect_r w = Raise ex) ->
   count is_read tr = 0%nat /\
   count is_publish tr = 0%nat /\
   count is_sleep tr = 0%nat /\
   snd (async_main fuel w a initial_state) = Some (Ok tt)).
Proof.
  cbv zeta.
  destruct (async_main_structure fuel w a)
    as (pre & loop & post & nc_bound & Htr & Hpre & Hfirst & Hloop & Hne
        & Hnc & Hpost).
  rewrite Htr.
  assert (Hrel : Forall (fun ev => release_event ev = true) post).
  { destruct Hpost as [-> | [-> | (ex & ->)]];
      [constructor | apply release_events_kind |].
    constructor; [reflexivity | apply release_events_kind]. }
  split.
  - rewrite !count_app, Hfirst.
    rewrite (count_disjoint is_first_connect _ loop Hloop) by kinds_disjoint.
    rewrite (count_disjoint is_first_connect _ post Hrel) by kinds_disjoint.
    lia.
  - intros Hfail.
    assert (Hnot : nc_bound = false).
    { destruct nc_bound; [|reflexivity].
      destruct Hnc as [Hnc _]. destruct (Hnc eq_refl) as [Ho Hc].
      destruct Hfail as [H | (ex & H)]; congruence. }
    assert (Hempty : loop = []).
    { destruct loop; [reflexivity|].
      assert (nc_bound = true) by (apply Hne; discriminate). congruence. }
    subst loop. cbn [app].
    assert (Hq : forall q,
               (forall ev, startup_event ev = true -> q ev = false) ->
               (forall ev, release_event ev = true -> q ev = false) ->
               count q (pre ++ post) = 0%nat).
    { intros q H1 H2. rewrite count_app.
      rewrite (count_disjoint q _ pre Hpre H1).
      now rewrite (count_disjoint q _ post Hrel H2). }
    repeat split; try (apply Hq; kinds_disjoint).
    rewrite async_main_snd.
    destruct Hfail as [H | (ex & H)].
    + now rewrite try_body_no_camera.
    + destruct (cap_opened w) eqn:Ho.
      * now rewrite (try_body_no_server fuel w a _ ex Ho H).
      * now rewrite try_body_no_camera.
Qed.

(** ** The quality of every encoding *)

Lemma pass_quality w a fd e :
  0 <= jpeg_quality a <= 100 ->
  Forall quality_in_range (pass_events w a fd e).
Proof.
  intros H. run_pass;
    repeat (apply Forall_cons; [first [exact I | exact H]|]);
    apply Forall_nil.
Qed.

Lemma parse_args_quality c a :
  parse_args c = inr a -> 0 <= jpeg_quality a <= 100.
Proof.
  unfold parse_args.
  destruct (opt_jpeg_quality c) as [q|].
  - destruct (in_range 0 101 q) eqn:Hq; [|discriminate].
    intros H; injection H as <-. cbn [jpeg_quality].
    apply in_range_iff in Hq. lia.
  - intros H; injection H as <-. cbn [jpeg_quality]. lia.
Qed.

(** Whatever the command line, every call of [cv2.imencode] that the
    process makes asks for a quality between 0 and 100: a command line with
    another quality is rejected with status 2 before anything runs, and a
    command line whose values have the types of their options is rejected
    for no other reason. *)
Theorem every_encoding_has_a_valid_quality (fuel : nat) (w : world)
  (c : cmdline) :
  Forall quality_in_range (fst (main fuel w c)) /\
  (forall status,
      parse_args c = inl status ->
      main fuel w c = ([], Some 2) /\
      exists q, opt_jpeg_quality c = Some q /\ (q < 0 \/ 100 < q)).
Proof.
  split.
  - unfold main. destruct (parse_args c) as [status | a] eqn:Hp;
      [constructor|].
    pose proof (parse_args_quality c a Hp) as Hq.
    assert (H : preserves quality_in_range (run_server fuel w a)).
    { unfold run_server, async_main, try_body, init_camera, set_properties,
        connect_nats, publishing_loop, finally_block, release_transport,
        release_camera.
      repeat preserves_step; try exact I.
      all: try (apply preserves_while_loop;
                [intros; exact I | intros; now apply pass_quality]). }
    specialize (H initial_state (Forall_nil _)).
    now destruct (run_server fuel w a initial_state).
  - intros status Hp. unfold main. rewrite Hp.
    unfold parse_args in Hp.
    destruct (opt_jpeg_quality c) as [q|]; [|discriminate].
    destruct (in_range 0 101 q) eqn:Hq; [discriminate|].
    injection Hp as <-. split; [reflexivity|].
    exists q. split; [reflexivity|].
    assert (~ (0 <= q < 101)) by (rewrite <- in_range_iff; congruence).
    lia.
Qed.

(** ** A negative rate *)

Lemma negative_period n fd :
  n < 0 -> fdiv_int n = Ok fd -> (fd < 0)%Q.
Proof.
  intros Hn Hfd. destruct (fdiv_int_correct n fd Hfd) as [_ ->].
  destruct n as [|p|p]; try lia. reflexivity.
Qed.

Lemma short_negative_period n fd :
  -200 < n < 0 -> fdiv_int n = Ok fd -> (fd < - (5 # 1000))%Q.
Proof.
  intros Hn Hfd. destruct (fdiv_int_correct n fd Hfd) as [_ ->].
  destruct n as [|p|p]; try lia.
  unfold Qlt. cbn. lia.
Qed.

(** A negative [--fps] is accepted, and it turns the pacing off: with a
    clock that does not run backwards no pass sleeps at its end, and for a
    rate above -200 every pass that reaches the pacing logs the warning
    that the rate is too high. *)
Theorem negative_rate_turns_pacing_off (a : args) (fd t0 : Q) (e : iter_env) :
  fps a < 0 ->
  fdiv_int (fps a) = Ok fd ->
  (t0 <= t_end e)%Q ->
  count is_sleep (pace_events a fd t0 e) = 0%nat /\
  (-200 < fps a ->
   pace_events a fd t0 e =
   [EvMonotonic (t_end e);
    EvLog WARNING (MsgFpsTooHigh (fps a) (fsub (t_end e) t0) fd)]).
Proof.
  intros Hn Hfd Hclock.
  pose proof (negative_period _ _ Hn Hfd) as Hneg.
  destruct (pace_events_cases a fd t0 e) as (_ & P2 & P3).
  split.
  - destruct (Qlt_le_dec (5 # 1000) (t_end e - t0 - fd)) as [H | H].
    + now rewrite (P3 H).
    + rewrite P2; [reflexivity | lra | exact H].
  - intros Hshort. apply P3.
    pose proof (short_negative_period _ _ (conj Hshort Hn) Hfd). lra.
Qed.

Lemma negative_rate_turns_pacing_off_witness :
  parse_args (mkCmdline None None None None None (Some (-1)) None None) =
    inr args_negative_fps /\
  pace_events args_negative_fps (-1) 0 (pass_valid 0 (1 # 100)) =
    [EvMonotonic (1 # 100);
     EvLog WARNING (MsgFpsTooHigh (-1) (1 # 100) (-1))].
Proof.
  split; [reflexivity|].
  refine (proj2 (negative_rate_turns_pacing_off args_negative_fps (-1) 0
                   (pass_valid 0 (1 # 100)) eq_refl eq_refl _) eq_refl).
  unfold Qle; cbn; lia.
Defined.

(** * Properties of the dummy robot *)

Section DummyRobotProperties.

Import DummyRobot.

Lemma connect_results_app (a b : list DummyRobot.event) :
  connect_results (a ++ b) = connect_results a ++ connect_results b.
Proof. apply flat_map_app. Qed.

Lemma disconnect_results_app (a b : list DummyRobot.event) :
  disconnect_results (a ++ b) = disconnect_results a ++ disconnect_results b.
Proof. apply flat_map_app. Qed.

Lemma read_results_app (a b : list DummyRobot.event) :
  read_results (a ++ b) = read_results a ++ read_results b.
Proof. apply flat_map_app. Qed.

Lemma images_read_app (a b : list DummyRobot.event) :
  images_read (a ++ b) = images_read a ++ images_read b.
Proof. apply flat_map_app. Qed.

Lemma disconnect_errors_logged_app (a b : list DummyRobot.event) :
  disconnect_errors_logged (a ++ b) =
  disconnect_errors_logged a ++ disconnect_errors_logged b.
Proof. apply flat_map_app. Qed.

(** The loop of [connect]: what it appends to the trace. *)
Lemma connect_cameras_spec (env : environment) (cams : dict camera) :
  forall tr,
  exists new,
    fst (connect_cameras env cams tr) = tr ++ new /\
    disconnect_results new = [] /\
    read_results new = [] /\
    match snd (connect_cameras env cams tr) with
    | Returns _ =>
        connect_results new = map (fun c => (fst c, Returns tt)) cams
    | Raises e =>
        exists before name cam after cause,
          cams = before ++ (name, cam) :: after /\
          e = RobotDeviceNotConnectedError (FailedToConnectCamera name cause) /\
          connect_results new =
            map (fun c => (fst c, Returns tt)) before ++
            [(name, Raises cause)] /\
          exists mid, new = mid ++ [Log ERROR (MsgFailedConnect name cause)]
    end.
Proof.
  induction cams as [|[name cam] rest IH]; intros tr.
  - exists []. simpl. now rewrite app_nil_r.
  - simpl.
    set (tr1 := tr ++ [Log INFO (MsgConnecting name (camera_type cam))]).
    destruct (connect_r env tr1 name) as [[]|cause] eqn:E.
    + destruct (IH (tr1 ++ [CamConnect name (Returns tt)]))
        as (new & Hfst & Hd & Hr & Hm).
      exists ([Log INFO (MsgConnecting name (camera_type cam));
               CamConnect name (Returns tt)] ++ new).
      rewrite Hfst. unfold tr1.
      split; [now rewrite <- !app_assoc|].
      rewrite disconnect_results_app, read_results_app, connect_results_app.
      rewrite Hd, Hr.
      split; [reflexivity|]. split; [reflexivity|].
      destruct (snd (connect_cameras env rest _)) as [u|e].
      * simpl. now rewrite Hm.
      * destruct Hm as (before & n & c & after & cause & -> & -> & Hc & mid & ->).
        exists ((name, cam) :: before), n, c, after, cause.
        split; [reflexivity|]. split; [reflexivity|].
        split; [simpl; now rewrite Hc|].
        exists ([Log INFO (MsgConnecting name (camera_type cam));
                 CamConnect name (Returns tt)] ++ mid).
        now rewrite <- app_assoc.
    + exists [Log INFO (MsgConnecting name (camera_type cam));
              CamConnect name (Raises cause);
              Log ERROR (MsgFailedConnect name cause)].
      simpl. unfold tr1.
      split; [now rewrite <- !app_assoc|].
      split; [reflexivity|]. split; [reflexivity|].
      exists [], name, cam, rest, cause.
      split; [reflexivity|]. split; [reflexivity|]. split; [reflexivity|].
      now exists [Log INFO (MsgConnecting name (camera_type cam));
                  CamConnect name (Raises cause)].
Qed.

(** [connect] on a robot that is not connected: the cameras are connected in
    the order of the dictionary, and the first one that fails ends the call
    with [RobotDeviceNotConnectedError] raised from its exception.  The flag
    is set only when every camera connected; the cameras connected before
    the failing one are not disconnected, and the ones after it are not
    touched. *)
Theorem connect_stops_at_first_failing_camera
  (env : environment) (self : robot) :
  is_connected self = false ->
  exists new,
    trace (fst (connect env self)) = trace self ++ new /\
    cameras (fst (connect env self)) = cameras self /\
    disconnect_results new = [] /\
    read_results new = [] /\
    match snd (connect env self) with
    | Returns _ =>
        is_connected (fst (connect env self)) = true /\
        connect_results new =
          map (fun c => (fst c, Returns tt)) (cameras self)
    | Raises e =>
        is_connected (fst (connect env self)) = false /\
        exists before name cam after cause,
          cameras self = before ++ (name, cam) :: after /\
          e = RobotDeviceNotConnectedError (FailedToConnectCamera name cause) /\
          connect_results new =
            map (fun c => (fst c, Returns tt)) before ++
            [(name, Raises cause)] /\
          exists mid, new = mid ++ [Log ERROR (MsgFailedConnect name cause)]
    end.
Proof.
  intros Hc. unfold connect. rewrite Hc.
  set (tr0 := trace self ++ _).
  destruct (connect_cameras_spec env (cameras self) tr0)
    as (new & Hfst & Hd & Hr & Hm).
  destruct (connect_cameras env (cameras self) tr0) as [tr [u|e]];
    simpl in *; subst tr; unfold tr0.
  - exists ([Log INFO (MsgAttemptConnect (List.length (cameras self)))] ++
            new ++ [Log INFO MsgConnected]).
    split; [now rewrite <- !app_assoc|]. split; [reflexivity|].
    rewrite !disconnect_results_app, !read_results_app, !connect_results_app.
    rewrite Hd, Hr, Hm. simpl. rewrite app_nil_r. auto.
  - exists ([Log INFO (MsgAttemptConnect (List.length (cameras self)))] ++ new).
    split; [now rewrite <- !app_assoc|]. split; [reflexivity|].
    rewrite !disconnect_results_app, !read_results_app, !connect_results_app.
    rewrite Hd, Hr. split; [reflexivity|]. split; [reflexivity|].
    split; [reflexivity|].
    destruct Hm as (before & n & c & after & cause & H1 & H2 & H3 & mid & ->).
    exists before, n, c, after, cause. simpl.
    repeat (split; [assumption|]).
    exists ([Log INFO (MsgAttemptConnect (List.length (cameras self)))] ++ mid).
    now rewrite <- app_assoc.
Qed.

Lemma connect_stops_at_first_failing_camera_witness :
  exists new,
    trace (fst (connect env_wrist_broken fresh_robot)) =
      trace fresh_robot ++ new /\
    connect_results new =
      [("top"%string, Returns tt);
       ("wrist"%string, Raises (CameraError "no device"))] /\
    is_connected (fst (connect env_wrist_broken fresh_robot)) = false.
Proof.
  destruct (connect_stops_at_first_failing_camera env_wrist_broken fresh_robot
              eq_refl) as (new & Ht & _ & _ & _ & Hm).
  exists new. split; [exact Ht|].
  split; [|reflexivity].
  vm_compute in Ht. subst new. reflexivity.
Defined.

(** The loop of [disconnect]: what it appends to the trace. *)
Lemma disconnect_cameras_spec (env : environment) (cams : dict camera) :
  forall tr,
  exists new,
    disconnect_cameras env cams tr = tr ++ new /\
    map fst (disconnect_results new) = keys (with_disconnect cams) /\
    disconnect_errors_logged new = filter raised (disconnect_results new) /\
    connect_results new = [] /\
    read_results new = [].
Proof.
  induction cams as [|[name cam] rest IH]; intros tr.
  - exists []. simpl. now rewrite app_nil_r.
  - simpl.
    set (tr1 := tr ++ [Log INFO (MsgDisconnecting name (camera_type cam))]).
    unfold with_disconnect. simpl.
    destruct (has_disconnect cam).
    + destruct (disconnect_r env tr1 name) as [[]|e] eqn:E.
      * destruct (IH (tr1 ++ [CamDisconnect name (Returns tt)]))
          as (new & -> & Hd & He & Hc & Hr).
        exists ([Log INFO (MsgDisconnecting name (camera_type cam));
                 CamDisconnect name (Returns tt)] ++ new).
        unfold tr1. split; [now rewrite <- !app_assoc|].
        rewrite disconnect_results_app, disconnect_errors_logged_app,
          connect_results_app, read_results_app, Hc, Hr, He.
        simpl. unfold with_disconnect in Hd. now rewrite Hd.
      * destruct (IH ((tr1 ++ [CamDisconnect name (Raises e)]) ++
                      [Log ERROR (MsgErrorDisconnect name e)]))
          as (new & -> & Hd & He & Hc & Hr).
        exists ([Log INFO (MsgDisconnecting name (camera_type cam));
                 CamDisconnect name (Raises e);
                 Log ERROR (MsgErrorDisconnect name e)] ++ new).
        unfold tr1. split; [now rewrite <- !app_assoc|].
        rewrite disconnect_results_app, disconnect_errors_logged_app,
          connect_results_app, read_results_app, Hc, Hr, He.
        simpl. unfold with_disconnect in Hd. now rewrite Hd.
    + destruct (IH tr1) as (new & -> & Hd & He & Hc & Hr).
      exists ([Log INFO (MsgDisconnecting name (camera_type cam))] ++ new).
      unfold tr1. split; [now rewrite <- !app_assoc|].
      rewrite disconnect_results_app, disconnect_errors_logged_app,
        connect_results_app, read_results_app, Hc, Hr, He.
      simpl. auto.
Qed.

(** [disconnect] returns, with the robot marked as not connected. *)
Lemma disconnect_spec (env : environment) (self : robot) :
  snd (disconnect env self) = Returns tt /\
  is_connected (fst (disconnect env self)) = false /\
  exists new,
    trace (fst (disconnect env self)) = trace self ++ new /\
    map fst (disconnect_results new) = keys (with_disconnect (cameras self)).
Proof.
  unfold disconnect. simpl.
  split; [reflexivity|]. split; [reflexivity|].
  set (tr0 := trace self ++ _).
  destruct (disconnect_cameras_spec env (cameras self) tr0)
    as (new & -> & Hd & _).
  exists ([Log INFO (MsgAttemptDisconnect (List.length (cameras self)))] ++
          new ++ [Log INFO MsgDisconnected]).
  unfold tr0. split; [now rewrite <- !app_assoc|].
  rewrite !disconnect_results_app. simpl. now rewrite app_nil_r.
Qed.

(** [disconnect] never raises and always leaves the robot marked as not
    connected, whether it was connected or not.  It calls [disconnect] once
    on every camera that has the method, in the order of the dictionary,
    also after a camera failed: the failures are exactly the errors that are
    logged.  No camera is connected or read. *)
Theorem disconnect_tries_every_camera (env : environment) (self : robot) :
  snd (disconnect env self) = Returns tt /\
  is_connected (fst (disconnect env self)) = false /\
  cameras (fst (disconnect env self)) = cameras self /\
  exists new,
    trace (fst (disconnect env self)) = trace self ++ new /\
    map fst (disconnect_results new) = keys (with_disconnect (cameras self)) /\
    disconnect_errors_logged new = filter raised (disconnect_results new) /\
    connect_results new = [] /\
    read_results new = [].
Proof.
  unfold disconnect. simpl.
  split; [reflexivity|]. split; [reflexivity|]. split; [reflexivity|].
  set (tr0 := trace self ++ _).
  destruct (disconnect_cameras_spec env (cameras self) tr0)
    as (new & -> & Hd & He & Hc & Hr).
  exists ([Log INFO (MsgAttemptDisconnect (List.length (cameras self)))] ++
          new ++ [Log INFO MsgDisconnected]).
  unfold tr0. split; [now rewrite <- !app_assoc|].
  rewrite !disconnect_results_app, !disconnect_errors_logged_app,
    !connect_results_app, !read_results_app, Hc, Hr, He.
  simpl. rewrite !app_nil_r. auto.
Qed.

(** ** Dictionaries *)

Lemma dict_get_set_same {V} (d : dict V) (k : string) (v : V) :
  dict_get (dict_set d k v) k = Some v.
Proof.
  induction d as [|[k' v'] rest IH]; simpl.
  - now rewrite String.eqb_refl.
  - destruct (String.eqb k' k) eqn:E; simpl; now rewrite E.
Qed.

Lemma dict_get_set_other {V} (d : dict V) (k k' : string) (v : V) :
  k <> k' -> dict_get (dict_set d k v) k' = dict_get d k'.
Proof.
  intros Hne. induction d as [|[k0 v0] rest IH]; simpl.
  - destruct (String.eqb k k') eqn:E; [|reflexivity].
    apply String.eqb_eq in E. contradiction.
  - destruct (String.eqb k0 k) eqn:E; simpl.
    + apply String.eqb_eq in E. subst k0.
      destruct (String.eqb k k') eqn:E'; [|reflexivity].
      apply String.eqb_eq in E'. contradiction.
    + now rewrite IH.
Qed.

Lemma dict_set_fresh {V} (d : dict V) (k : string) (v : V) :
  dict_get d k = None -> dict_set d k v = d ++ [(k, v)].
Proof.
  induction d as [|[k' v'] rest IH]; simpl; [reflexivity|].
  destruct (String.eqb k' k); [discriminate|].
  intros H. now rewrite IH.
Qed.

Lemma dict_get_app_fresh {V} (d : dict V) (k k' : string) (v : V) :
  dict_get d k' = None -> k <> k' -> dict_get (d ++ [(k, v)]) k' = None.
Proof.
  intros Hd Hne. induction d as [|[k0 v0] rest IH]; simpl in *.
  - destruct (String.eqb k k') eqn:E; [|reflexivity].
    apply String.eqb_eq in E. contradiction.
  - destruct (String.eqb k0 k'); [discriminate|]. now apply IH.
Qed.

Lemma image_key_inj (k k' : string) : image_key k = image_key k' -> k = k'.
Proof. unfold image_key. simpl. intros H. now injection H. Qed.

Lemma images_read_no_state (tr : list DummyRobot.event) :
  dict_get (images_read tr) "observation.state" = None.
Proof.
  induction tr as [|ev tr IH]; [reflexivity|].
  destruct ev as [| | |n [[img|]|e]]; simpl; exact IH.
Qed.

Lemma keys_app {V} (a b : dict V) : keys (a ++ b) = keys a ++ keys b.
Proof. apply map_app. Qed.

Lemma keys_images_read (tr : list DummyRobot.event) :
  keys (images_read tr) =
  map image_key
      (map fst (filter (fun r => match snd r with
                                 | Returns (Some _) => true
                                 | _ => false
                                 end) (read_results tr))).
Proof.
  induction tr as [|ev tr IH]; [reflexivity|].
  destruct ev as [| | |n [[img|]|e]]; simpl; try exact IH.
  unfold keys in *. simpl. now rewrite IH.
Qed.

(** The loop of [capture_observation]: what it appends to the trace and what
    it returns. *)
Lemma read_cameras_spec (env : environment) (cams : dict camera) :
  forall tr obs0,
  exists new,
    fst (read_cameras env cams tr obs0) = tr ++ new /\
    match snd (read_cameras env cams tr obs0) with
    | Returns obs =>
        List.length new = List.length cams /\
        map fst (read_results new) = keys cams /\
        keys (images_read new) = map image_key (keys cams) /\
        (NoDup (keys cams) ->
         (forall k, In k (keys cams) -> dict_get obs0 (image_key k) = None) ->
         obs = obs0 ++ images_read new)
    | Raises e =>
        exists before key cam after cause r mid,
          cams = before ++ (key, cam) :: after /\
          e = RuntimeError key cause /\
          new = mid ++ [CamRead key r; Log ERROR (MsgFailedRead key cause)] /\
          List.length mid = List.length before /\
          map fst (read_results mid) = keys before /\
          (r = Returns None /\ cause = ValueError key \/ r = Raises cause)
    end.
Proof.
  induction cams as [|[key cam] rest IH]; intros tr obs0.
  - exists []. simpl. rewrite !app_nil_r. auto.
  - simpl. destruct (read_r env tr key) as [[img|]|e] eqn:E.
    + destruct (IH (tr ++ [CamRead key (Returns (Some img))])
                   (dict_set obs0 (image_key key) (from_numpy img)))
        as (new & Hfst & Hm).
      exists ([CamRead key (Returns (Some img))] ++ new).
      rewrite Hfst. split; [now rewrite <- app_assoc|].
      destruct (snd (read_cameras env rest _ _)) as [obs|err].
      * destruct Hm as (Hl & Hr & Hk & Hobs).
        split; [simpl; now rewrite Hl|].
        split; [simpl; unfold keys in *; simpl; now rewrite Hr|].
        split; [simpl; unfold keys in *; simpl; now rewrite Hk|].
        intros Hnd Hfresh. unfold keys in Hnd. simpl in Hnd.
        apply NoDup_cons_iff in Hnd. destruct Hnd as [Hnotin Hnd].
        assert (Hset : dict_set obs0 (image_key key) (from_numpy img) =
                       obs0 ++ [(image_key key, from_numpy img)]).
        { apply dict_set_fresh, Hfresh. now left. }
        rewrite Hobs; [rewrite Hset; now rewrite <- app_assoc|exact Hnd|].
        intros k Hin. rewrite Hset. apply dict_get_app_fresh.
        -- apply Hfresh. now right.
        -- intros Heq. apply image_key_inj in Heq. subst k. contradiction.
      * destruct Hm as (before & k & c & after & cause & r & mid &
                        -> & -> & -> & Hl & Hr & Hc).
        exists ((key, cam) :: before), k, c, after, cause, r,
               ([CamRead key (Returns (Some img))] ++ mid).
        split; [reflexivity|]. split; [reflexivity|].
        split; [now rewrite <- app_assoc|].
        split; [simpl; now rewrite Hl|].
        split; [simpl; unfold keys in *; simpl; now rewrite Hr|exact Hc].
    + exists [CamRead key (Returns None);
              Log ERROR (MsgFailedRead key (ValueError key))].
      simpl. split; [now rewrite <- app_assoc|].
      exists [], key, cam, rest, (ValueError key), (Returns None), [].
      repeat (split; [reflexivity|]). now left.
    + exists [CamRead key (Raises e); Log ERROR (MsgFailedRead key e)].
      simpl. split; [now rewrite <- app_assoc|].
      exists [], key, cam, rest, e, (Raises e), [].
      repeat (split; [reflexivity|]). now right.
Qed.

(** On a connected robot whose cameras all return an image,
    [capture_observation] reads every camera once, in the order of the
    dictionary, and does nothing else.  The observation has one entry per
    camera, the image read from it under the key of the camera, in that
    order, followed by the empty state vector.  The robot stays connected. *)
Theorem capture_returns_one_image_per_camera
  (env : environment) (self self' : robot) (obs : dict tensor) :
  NoDup (keys (cameras self)) ->
  capture_observation env self = (self', Returns obs) ->
  is_connected self = true /\
  is_connected self' = true /\
  cameras self' = cameras self /\
  exists new,
    trace self' = trace self ++ new /\
    List.length new = List.length (cameras self) /\
    map fst (read_results new) = keys (cameras self) /\
    obs = images_read new ++ [("observation.state"%string, empty 0 float32)] /\
    keys obs =
      map image_key (keys (cameras self)) ++ ["observation.state"%string].
Proof.
  intros Hnd. unfold capture_observation.
  destruct (is_connected self) eqn:Hc; simpl; [|discriminate].
  destruct (read_cameras_spec env (cameras self) (trace self) [])
    as (new & Hfst & Hm).
  destruct (read_cameras env (cameras self) (trace self) []) as [tr [o|e]];
    simpl in *; [|discriminate].
  intros H. injection H as <- <-. simpl.
  destruct Hm as (Hl & Hr & Hk & Hobs).
  split; [reflexivity|]. split; [reflexivity|]. split; [reflexivity|].
  exists new. repeat (split; [assumption|]).
  rewrite (Hobs Hnd (fun k _ => eq_refl)). simpl.
  rewrite dict_set_fresh by apply images_read_no_state.
  split; [reflexivity|]. now rewrite keys_app, Hk.
Qed.

Lemma three_cameras_distinct : NoDup (keys three_cameras).
Proof.
  unfold three_cameras, keys. simpl.
  repeat constructor; simpl; intuition discriminate.
Defined.

Lemma capture_returns_one_image_per_camera_witness :
  NoDup (keys (cameras connected_robot)) /\
  exists obs,
    snd (capture_observation env_healthy connected_robot) = Returns obs /\
    keys obs =
      ["observation.images.top"%string; "observation.images.wrist"%string;
       "observation.images.side"%string; "observation.state"%string].
Proof.
  split; [exact three_cameras_distinct|].
  destruct (capture_observation env_healthy connected_robot)
    as [self' [obs|e]] eqn:E; [|vm_compute in E; discriminate].
  exists obs. split; [reflexivity|].
  destruct (capture_returns_one_image_per_camera
              env_healthy connected_robot self' obs three_cameras_distinct E)
    as (_ & _ & _ & new & _ & _ & _ & _ & Hk).
  exact Hk.
Defined.

(** On a connected robot, [capture_observation] stops at the first camera
    whose [read] raises or returns [None]: the cameras before it were read
    once each, the ones after it are not read, the failure is logged and
    [RuntimeError] is raised from it ([ValueError] for [None]).  No
    observation is returned, and the robot stays connected. *)
Theorem capture_fails_at_first_unreadable_camera
  (env : environment) (self self' : robot) (e : error) :
  is_connected self = true ->
  capture_observation env self = (self', Raises e) ->
  is_connected self' = true /\
  cameras self' = cameras self /\
  exists before key cam after cause r mid,
    cameras self = before ++ (key, cam) :: after /\
    e = RuntimeError key cause /\
    trace self' =
      trace self ++ mid ++
      [CamRead key r; Log ERROR (MsgFailedRead key cause)] /\
    List.length mid = List.length before /\
    map fst (read_results mid) = keys before /\
    (r = Returns None /\ cause = ValueError key \/ r = Raises cause).
Proof.
  intros Hc. unfold capture_observation. rewrite Hc. simpl.
  destruct (read_cameras_spec env (cameras self) (trace self) [])
    as (new & Hfst & Hm).
  destruct (read_cameras env (cameras self) (trace self) []) as [tr [o|err]];
    simpl in *; [discriminate|].
  intros H. injection H as <- <-. simpl.
  split; [reflexivity|]. split; [reflexivity|].
  destruct Hm as (before & key & cam & after & cause & r & mid &
                  H1 & H2 & -> & H4 & H5 & H6).
  exists before, key, cam, after, cause, r, mid. subst tr. auto 10.
Qed.

Lemma capture_fails_at_first_unreadable_camera_witness :
  is_connected connected_robot = true /\
  snd (capture_observation env_wrist_broken connected_robot) =
    Raises (RuntimeError "wrist" (ValueError "wrist")) /\
  exists before cam after,
    cameras connected_robot = before ++ ("wrist"%string, cam) :: after.
Proof.
  split; [reflexivity|]. split; [reflexivity|].
  destruct (capture_observation env_wrist_broken connected_robot)
    as [self' [obs|e]] eqn:E; [vm_compute in E; discriminate|].
  destruct (capture_fails_at_first_unreadable_camera
              env_wrist_broken connected_robot self' e eq_refl E)
    as (_ & _ & before & key & cam & after & cause & r & mid &
        H1 & H2 & _).
  assert (He : e = RuntimeError "wrist" (ValueError "wrist")).
  { vm_compute in E. now injection E. }
  rewrite He in H2. injection H2 as <- _.
  now exists before, cam, after.
Defined.

(** [features] always declares the state and the action as empty [float32]
    vectors of shape [(0,)], also when the parent class has entries under
    these two names, and it passes on every other entry of the parent class
    as it is. *)
Theorem features_declare_empty_state_and_action
  (camera_features : dict feature) :
  dict_get (features camera_features) "observation.state" = Some empty_vector /\
  dict_get (features camera_features) "action" = Some empty_vector /\
  (forall k, k <> "observation.state"%string -> k <> "action"%string ->
     dict_get (features camera_features) k = dict_get camera_features k) /\
  incl (keys camera_features) (keys (features camera_features)).
Proof.
  unfold features.
  split; [rewrite dict_get_set_other by discriminate;
          apply dict_get_set_same|].
  split; [apply dict_get_set_same|].
  split.
  - intros k H1 H2. rewrite !dict_get_set_other by congruence. reflexivity.
  - assert (Hk : forall (d : dict feature) k v,
               incl (keys d) (keys (dict_set d k v))).
    { induction d as [|[k0 v0] rest IH]; intros k v x Hin; simpl in *.
      - contradiction.
      - destruct (String.eqb k0 k); simpl in *; [exact Hin|].
        destruct Hin as [<-|Hin]; [now left|right; now apply IH]. }
    intros x Hin. now apply Hk, Hk.
Qed.

(** What the robot returns agrees with what [features] declares: the state
    in every observation that [capture_observation] returns, and the tensor
    that [send_action] returns for any action, are empty [float32] vectors,
    as declared under "observation.state" and "action". *)
Theorem state_and_action_match_their_declared_features
  (env : environment) (self : robot) (camera_features : dict feature) :
  (forall self' obs,
     capture_observation env self = (self', Returns obs) ->
     exists f t,
       dict_get (features camera_features) "observation.state" = Some f /\
       dict_get obs "observation.state" = Some t /\
       tensor_matches f t) /\
  (forall action self' t,
     send_action self action = (self', Returns t) ->
     exists f,
       dict_get (features camera_features) "action" = Some f /\
       tensor_matches f t).
Proof.
  split.
  - intros self' obs. unfold capture_observation.
    destruct (negb (is_connected self)); [discriminate|].
    destruct (read_cameras env (cameras self) (trace self) []) as [tr [o|e]];
      [|discriminate].
    intros H. injection H as <- <-.
    exists empty_vector, (empty 0 float32).
    split; [|split; [apply dict_get_set_same|now split]].
    unfold features. rewrite dict_get_set_other by discriminate.
    apply dict_get_set_same.
  - intros action self' t. unfold send_action.
    destruct (negb (is_connected self)); [discriminate|].
    intros H. injection H as <- <-.
    exists empty_vector. split; [apply dict_get_set_same|now split].
Qed.

Lemma state_and_action_match_their_declared_features_witness :
  exists obs t f_state f_action,
    snd (capture_observation env_healthy connected_robot) = Returns obs /\
    snd (send_action connected_robot (from_numpy [1; 2; 3])) = Returns t /\
    dict_get (features []) "observation.state" = Some f_state /\
    dict_get (features []) "action" = Some f_action /\
    (exists t_state,
        dict_get obs "observation.state" = Some t_state /\
        tensor_matches f_state t_state) /\
    tensor_matches f_action t.
Proof.
  destruct (state_and_action_match_their_declared_features
              env_healthy connected_robot []) as [Hobs Hact].
  destruct (capture_observation env_healthy connected_robot)
    as [self1 [obs|e]] eqn:E1; [|vm_compute in E1; discriminate].
  destruct (send_action connected_robot (from_numpy [1; 2; 3]))
    as [self2 [t|e]] eqn:E2; [|vm_compute in E2; discriminate].
  destruct (Hobs self1 obs eq_refl) as (f & ts & Hf & Hts & Hm).
  destruct (Hact (from_numpy [1; 2; 3]) self2 t E2) as (fa & Hfa & Hma).
  exists obs, t, f, fa. simpl.
  split; [reflexivity|]. split; [reflexivity|].
  split; [exact Hf|]. split; [exact Hfa|].
  split; [now exists ts|exact Hma].
Defined.

(** A robot on which [connect] returned is marked as connected. *)
Lemma connect_returns_connected (env : environment) (self : robot) (u : unit) :
  snd (connect env self) = Returns u ->
  is_connected self = false /\ is_connected (fst (connect env self)) = true.
Proof.
  unfold connect. destruct (is_connected self); [discriminate|].
  destruct (connect_cameras env (cameras self) _) as [tr [v|e]];
    [now split|discriminate].
Qed.

(** A robot on which [connect] raised is not marked as connected, unless it
    was before. *)
Lemma connect_raises_flag (env : environment) (self : robot) (e : error) :
  snd (connect env self) = Raises e ->
  is_connected (fst (connect env self)) = is_connected self.
Proof.
  unfold connect. destruct (is_connected self) eqn:Hc; [now intros _|].
  destruct (connect_cameras env (cameras self) _) as [tr [v|e']];
    [discriminate|now intros _].
Qed.

(** [__del__] releases the cameras only after a complete [connect].  When
    [connect] returned, [__del__] disconnects every camera that has the
    method and leaves the robot not connected.  When [connect] raised
    because of one camera, [__del__] does nothing at all: the cameras that
    were connected before the failing one are never disconnected by the
    robot. *)
Theorem del_releases_only_after_a_complete_connect
  (env env' : environment) (self : robot) :
  is_connected self = false ->
  match snd (connect env self) with
  | Returns _ =>
      is_connected (del env' (fst (connect env self))) = false /\
      exists new,
        trace (del env' (fst (connect env self))) =
          trace (fst (connect env self)) ++ new /\
        map fst (disconnect_results new) =
          keys (with_disconnect (cameras self))
  | Raises _ => del env' (fst (connect env self)) = fst (connect env self)
  end.
Proof.
  intros Hc.
  destruct (snd (connect env self)) as [u|e] eqn:E.
  - destruct (connect_returns_connected env self u E) as [_ Hc1].
    assert (Hcams : cameras (fst (connect env self)) = cameras self).
    { revert E. unfold connect. rewrite Hc.
      now destruct (connect_cameras env (cameras self) _) as [tr [v|e']]. }
    set (self1 := fst (connect env self)) in *.
    unfold del. rewrite Hc1.
    set (self1' := mkRobot _ _ _).
    destruct (disconnect_spec env' self1')
      as (Hs & Hf & new & Ht & Hd).
    destruct (disconnect env' self1') as [self2 [v|e']];
      simpl in *; [|discriminate].
    split; [exact Hf|].
    exists ([Log INFO MsgDelWhileConnected] ++ new).
    rewrite Ht, disconnect_results_app, <- app_assoc. simpl.
    now rewrite Hd, Hcams.
  - unfold del. rewrite (connect_raises_flag env self e E), Hc. reflexivity.
Qed.

Lemma del_releases_only_after_a_complete_connect_witness :
  is_connected fresh_robot = false /\
  connect_results (trace (fst (connect env_wrist_broken fresh_robot))) =
    [("top"%string, Returns tt);
     ("wrist"%string, Raises (CameraError "no device"))] /\
  del env_healthy (fst (connect env_wrist_broken fresh_robot)) =
    fst (connect env_wrist_broken fresh_robot).
Proof.
  split; [reflexivity|]. split; [reflexivity|].
  exact (del_releases_only_after_a_complete_connect
           env_wrist_broken env_healthy fresh_robot eq_refl).
Defined.

(** The connection cycle.  Once [connect] returned, a further [connect] is
    refused with [RobotDeviceAlreadyConnectedError] and does nothing.  After
    a [disconnect], [capture_observation] and [send_action] are refused
    without a call to a camera, and [connect] is accepted again: it can
    only fail because of a camera. *)
Theorem connect_is_refused_until_disconnect
  (env env1 env2 : environment) (self : robot) :
  snd (connect env self) = Returns tt ->
  connect env1 (fst (connect env self)) =
    (fst (connect env self), Raises RobotDeviceAlreadyConnectedError) /\
  (forall self2, self2 = fst (disconnect env1 (fst (connect env self))) ->
     capture_observation env2 self2 =
       (self2, Raises (RobotDeviceNotConnectedError ConnectBeforeCapturing)) /\
     (forall action,
        send_action self2 action =
          (self2,
           Raises (RobotDeviceNotConnectedError ConnectBeforeSendingActions))) /\
     snd (connect env2 self2) <> Raises RobotDeviceAlreadyConnectedError).
Proof.
  intros E. destruct (connect_returns_connected env self tt E) as [_ Hc1].
  split.
  - unfold connect at 1. now rewrite Hc1.
  - intros self2 ->.
    destruct (disconnect_spec env1 (fst (connect env self)))
      as (_ & Hf & _).
    set (self2 := fst (disconnect env1 (fst (connect env self)))) in *.
    split; [unfold capture_observation; now rewrite Hf|].
    split; [intros action; unfold send_action; now rewrite Hf|].
    unfold connect. rewrite Hf.
    set (tr0 := trace self2 ++ _).
    destruct (connect_cameras_spec env2 (cameras self2) tr0)
      as (new & _ & _ & _ & Hm).
    destruct (connect_cameras env2 (cameras self2) tr0) as [tr [v|e]];
      simpl in *; [discriminate|].
    destruct Hm as (? & ? & ? & ? & ? & _ & -> & _). discriminate.
Qed.

Lemma connect_is_refused_until_disconnect_witness :
  snd (connect env_healthy fresh_robot) = Returns tt /\
  snd (connect env_healthy (fst (connect env_healthy fresh_robot))) =
    Raises RobotDeviceAlreadyConnectedError.
Proof.
  split; [reflexivity|].
  exact (f_equal snd
           (proj1 (connect_is_refused_until_disconnect
                     env_healthy env_healthy env_healthy fresh_robot
                     eq_refl))).
Defined.

End DummyRobotProperties.
